(** * Joey's Nova Defense: the simulation core of [src/App.tsx]

    A shallow embedding of the game component: the data model, the
    operations [initGame], [spawnEnemy], [createExplosion], [fireMissile]
    and the frame callback [update], and the component's event dispatch
    with the [useEffect] that restarts the loop.

    Conventions of the embedding.
    - A JavaScript [number] that holds a coordinate, a speed, a radius or a
      time stamp is a real number ([R]); rounding of IEEE doubles is not
      modelled.  Counters that only ever hold integers ([score], the ammo
      pools, an explosion's [timer]) are in [Z], identifiers in [nat].
    - [useRef] cells and [useState] cells are fields of one record [App];
      every operation is a function [App -> App] (explicit state passing).
      A state setter called inside a handler is applied to the record at
      once; what a handler reads from its closure (the values of the render
      that created it) is read from the record the handler was entered with.
    - [Math.random ()] is the oracle [random]: the n-th call of a run
      returns [random n]; the record counts the calls in [draws].
    - Canvas drawing has no effect on the state and is left out.  The
      advisory tip ([aiTip], [getGameTips]) is not part of the simulation
      and is left out as well. *)

From Stdlib Require Import String.
From Stdlib Require Import Reals Lra Lia ZArith Bool List.
Import ListNotations.

Open Scope R_scope.

(** ** Numbers *)

(** Comparisons of JavaScript numbers, as booleans. *)
Definition Rltb (x y : R) : bool := if Rlt_dec x y then true else false.
Definition Rgtb (x y : R) : bool := Rltb y x.

(** [Math.floor] *)
Definition floor (x : R) : Z := Int_part x.

(** ** Constants *)

Definition TARGET_SCORE : Z := 1000.
Definition EXPLOSION_RADIUS : R := 40.
Definition EXPLOSION_DURATION : Z := 60.
Definition MISSILE_SPEED : R := 4.
Definition ENEMY_SPEED_MIN : R := 5 / 10.
Definition ENEMY_SPEED_MAX : R := 15 / 10.

(** ** Data model *)

Record Point := mkPoint { px : R; py : R }.

Inductive Colour :=
| Hex (code : string)
| Hsl (hue saturation lightness : R).

Record Particle := mkParticle {
  p_x : R; p_y : R; p_vx : R; p_vy : R; p_life : R; p_color : Colour }.

Record Missile := mkMissile {
  m_id : nat;
  m_start : Point;
  m_current : Point;
  m_target : Point;
  m_speed : R;
  m_color : string;
  m_isEnemy : bool }.

Record Explosion := mkExplosion {
  e_x : R; e_y : R; e_radius : R; e_maxRadius : R; e_timer : Z; e_id : nat }.

Inductive BuildingType := city | battery.
Inductive Side := left | center | right.

Record Building := mkBuilding {
  b_x : R; b_y : R; b_width : R; b_height : R;
  b_isDestroyed : bool;
  b_type : BuildingType;
  b_id : nat;
  b_batterySide : option Side }.

Inductive Difficulty := easy | medium | hard.
Inductive Phase := menu | playing | won | lost.
Inductive Language := en | zh.

Record Ammo := mkAmmo { a_left : Z; a_center : Z; a_right : Z }.

Definition INITIAL_AMMO : Ammo := mkAmmo 20 40 20.

Definition ammoAt (am : Ammo) (s : Side) : Z :=
  match s with
  | left => a_left am
  | center => a_center am
  | right => a_right am
  end.

(** [{ ...prev, [side]: v }] *)
Definition ammoSet (am : Ammo) (s : Side) (v : Z) : Ammo :=
  match s with
  | left => mkAmmo v (a_center am) (a_right am)
  | center => mkAmmo (a_left am) v (a_right am)
  | right => mkAmmo (a_left am) (a_center am) v
  end.

Record Canvas := mkCanvas { c_width : R; c_height : R }.

(** The component: its [useState] cells, its [useRef] cells, the canvas
    element behind [canvasRef] ([None] while it is not mounted or has no 2D
    context) and the number of [Math.random] calls made so far. *)
Record App := mkApp {
  gameState : Phase;
  score : Z;
  ammo : Ammo;
  language : Language;
  difficulty : Difficulty;
  showHelp : bool;
  missilesRef : list Missile;
  explosionsRef : list Explosion;
  buildingsRef : list Building;
  particlesRef : list Particle;
  lastEnemySpawnRef : R;
  nextIdRef : nat;
  canvas : option Canvas;
  draws : nat }.

Definition setGameState (v : Phase) (a : App) : App :=
  mkApp v (score a) (ammo a) (language a) (difficulty a) (showHelp a)
        (missilesRef a) (explosionsRef a) (buildingsRef a) (particlesRef a)
        (lastEnemySpawnRef a) (nextIdRef a) (canvas a) (draws a).

Definition setScore (v : Z) (a : App) : App :=
  mkApp (gameState a) v (ammo a) (language a) (difficulty a) (showHelp a)
        (missilesRef a) (explosionsRef a) (buildingsRef a) (particlesRef a)
        (lastEnemySpawnRef a) (nextIdRef a) (canvas a) (draws a).

Definition setAmmo (v : Ammo) (a : App) : App :=
  mkApp (gameState a) (score a) v (language a) (difficulty a) (showHelp a)
        (missilesRef a) (explosionsRef a) (buildingsRef a) (particlesRef a)
        (lastEnemySpawnRef a) (nextIdRef a) (canvas a) (draws a).

Definition setLanguage (v : Language) (a : App) : App :=
  mkApp (gameState a) (score a) (ammo a) v (difficulty a) (showHelp a)
        (missilesRef a) (explosionsRef a) (buildingsRef a) (particlesRef a)
        (lastEnemySpawnRef a) (nextIdRef a) (canvas a) (draws a).

Definition setDifficulty (v : Difficulty) (a : App) : App :=
  mkApp (gameState a) (score a) (ammo a) (language a) v (showHelp a)
        (missilesRef a) (explosionsRef a) (buildingsRef a) (particlesRef a)
        (lastEnemySpawnRef a) (nextIdRef a) (canvas a) (draws a).

Definition setShowHelp (v : bool) (a : App) : App :=
  mkApp (gameState a) (score a) (ammo a) (language a) (difficulty a) v
        (missilesRef a) (explosionsRef a) (buildingsRef a) (particlesRef a)
        (lastEnemySpawnRef a) (nextIdRef a) (canvas a) (draws a).

Definition setMissiles (v : list Missile) (a : App) : App :=
  mkApp (gameState a) (score a) (ammo a) (language a) (difficulty a) (showHelp a)
        v (explosionsRef a) (buildingsRef a) (particlesRef a)
        (lastEnemySpawnRef a) (nextIdRef a) (canvas a) (draws a).

Definition setExplosions (v : list Explosion) (a : App) : App :=
  mkApp (gameState a) (score a) (ammo a) (language a) (difficulty a) (showHelp a)
        (missilesRef a) v (buildingsRef a) (particlesRef a)
        (lastEnemySpawnRef a) (nextIdRef a) (canvas a) (draws a).

Definition setBuildings (v : list Building) (a : App) : App :=
  mkApp (gameState a) (score a) (ammo a) (language a) (difficulty a) (showHelp a)
        (missilesRef a) (explosionsRef a) v (particlesRef a)
        (lastEnemySpawnRef a) (nextIdRef a) (canvas a) (draws a).

Definition setParticles (v : list Particle) (a : App) : App :=
  mkApp (gameState a) (score a) (ammo a) (language a) (difficulty a) (showHelp a)
        (missilesRef a) (explosionsRef a) (buildingsRef a) v
        (lastEnemySpawnRef a) (nextIdRef a) (canvas a) (draws a).

Definition setLastEnemySpawn (v : R) (a : App) : App :=
  mkApp (gameState a) (score a) (ammo a) (language a) (difficulty a) (showHelp a)
        (missilesRef a) (explosionsRef a) (buildingsRef a) (particlesRef a)
        v (nextIdRef a) (canvas a) (draws a).

Definition setNextId (v : nat) (a : App) : App :=
  mkApp (gameState a) (score a) (ammo a) (language a) (difficulty a) (showHelp a)
        (missilesRef a) (explosionsRef a) (buildingsRef a) (particlesRef a)
        (lastEnemySpawnRef a) v (canvas a) (draws a).

Definition setCanvas (v : option Canvas) (a : App) : App :=
  mkApp (gameState a) (score a) (ammo a) (language a) (difficulty a) (showHelp a)
        (missilesRef a) (explosionsRef a) (buildingsRef a) (particlesRef a)
        (lastEnemySpawnRef a) (nextIdRef a) v (draws a).

Definition setDraws (v : nat) (a : App) : App :=
  mkApp (gameState a) (score a) (ammo a) (language a) (difficulty a) (showHelp a)
        (missilesRef a) (explosionsRef a) (buildingsRef a) (particlesRef a)
        (lastEnemySpawnRef a) (nextIdRef a) (canvas a) v.

(** Centre of a building's rectangle, and the top middle of it (the muzzle
    of a battery). *)
Definition centerOf (b : Building) : Point :=
  mkPoint (b_x b + b_width b / 2) (b_y b + b_height b / 2).

Definition muzzleOf (b : Building) : Point :=
  mkPoint (b_x b + b_width b / 2) (b_y b).

Definition isLive (b : Building) : bool := negb (b_isDestroyed b).

Definition isBattery (b : Building) : bool :=
  match b_type b with battery => true | city => false end.

(** [b.type === 'battery' && !b.isDestroyed] *)
Definition isActiveBattery (b : Building) : bool := isBattery b && isLive b.

(** ** Difficulty modifiers *)

Record Modifiers := mkModifiers { speedMult : R; spawnMult : R }.

Definition getDifficultyModifiers (d : Difficulty) : Modifiers :=
  match d with
  | easy => mkModifiers (7 / 10) (15 / 10)
  | hard => mkModifiers (13 / 10) (7 / 10)
  | medium => mkModifiers 1 1
  end.

(** ** Initialisation *)

(** The six cities pushed by the loop of [initGame], for [i] from [i0] on. *)
Fixpoint cities (n : nat) (i0 : nat) (spacing groundY : R) : list Building :=
  match n with
  | O => []
  | S n' =>
      mkBuilding (150 + (INR i0 + 1) * spacing - 20) (groundY - 20) 40 20
                 false city (3 + i0) None
      :: cities n' (S i0) spacing groundY
  end.

Definition cityCount : nat := 6.

Definition layout (width height : R) : list Building :=
  let groundY := height - 40 in
  let spacing := (width - 300) / (INR cityCount + 1) in
  [ mkBuilding 50 (groundY - 30) 60 30 false battery 0 (Some left);
    mkBuilding (width / 2 - 40) (groundY - 40) 80 40 false battery 1 (Some center);
    mkBuilding (width - 110) (groundY - 30) 60 30 false battery 2 (Some right) ]
  ++ cities cityCount 0 spacing groundY.

(** [initGame], with [window.innerWidth] and [window.innerHeight] as
    arguments. *)
Definition initGame (width height : R) (a : App) : App :=
  match canvas a with
  | None => a
  | Some _ =>
      let a := setCanvas (Some (mkCanvas width height)) a in
      let a := setBuildings (layout width height) a in
      let a := setMissiles [] a in
      let a := setExplosions [] a in
      let a := setParticles [] a in
      let a := setScore 0 a in
      let a := setAmmo INITIAL_AMMO a in
      setShowHelp false a
  end.

(** ** The operations of the simulation *)

Section Simulation.

(** The [Math.random] oracle; every value it returns lies in [0, 1). *)
Variable random : nat -> R.

(** One call of [Math.random ()]. *)
Definition mathRandom (a : App) : R * App :=
  (random (draws a), setDraws (S (draws a)) a).

(** *** createExplosion *)

(** One round of the particle loop: the literal draws [vx], [vy] and the hue
    of the colour, in that order. *)
Definition pushParticle (x y : R) (a : App) : App :=
  let (r1, a) := mathRandom a in
  let (r2, a) := mathRandom a in
  let (r3, a) := mathRandom a in
  setParticles
    (particlesRef a ++
       [mkParticle x y ((r1 - 5 / 10) * 4) ((r2 - 5 / 10) * 4) 1
                   (Hsl (r3 * 60 + 10) 100 50)]) a.

Fixpoint pushParticles (n : nat) (x y : R) (a : App) : App :=
  match n with
  | O => a
  | S n' => pushParticles n' x y (pushParticle x y a)
  end.

Definition createExplosion (x y : R) (a : App) : App :=
  let a :=
    setNextId (S (nextIdRef a))
      (setExplosions
         (explosionsRef a ++
            [mkExplosion x y 0 EXPLOSION_RADIUS EXPLOSION_DURATION (nextIdRef a)]) a) in
  pushParticles 15 x y a.

(** *** spawnEnemy *)

Definition spawnEnemy (a : App) : App :=
  match canvas a with
  | None => a
  | Some cv =>
      let targetBuildings := filter isLive (buildingsRef a) in
      match targetBuildings with
      | [] => a
      | b0 :: _ =>
          let (r1, a) := mathRandom a in
          let target :=
            nth (Z.to_nat (floor (r1 * INR (length targetBuildings))))
                targetBuildings b0 in
          let (r2, a) := mathRandom a in
          let startX := r2 * c_width cv in
          let sm := speedMult (getDifficultyModifiers (difficulty a)) in
          let (r3, a) := mathRandom a in
          setNextId (S (nextIdRef a))
            (setMissiles
               (missilesRef a ++
                  [mkMissile (nextIdRef a)
                             (mkPoint startX 0)
                             (mkPoint startX 0)
                             (mkPoint (b_x target + b_width target / 2)
                                      (b_y target + b_height target / 2))
                             ((ENEMY_SPEED_MIN + r3 * (ENEMY_SPEED_MAX - ENEMY_SPEED_MIN)) * sm)
                             "#ff4444"
                             true]) a)
      end
  end.

(** *** fireMissile *)

(** [minDist] starts at [Infinity]. *)
Inductive ExtNum := Finite (r : R) | Infinity.

Definition ltExt (x : R) (y : ExtNum) : bool :=
  match y with
  | Finite r => Rltb x r
  | Infinity => true
  end.

(** [ammo[side] > 0]; a building without a side reads [undefined], and
    [undefined > 0] is false. *)
Definition hasAmmo (am : Ammo) (b : Building) : bool :=
  match b_batterySide b with
  | Some s => (0 <? ammoAt am s)%Z
  | None => false
  end.

(** The body of [batteries.forEach], on the two variables it assigns. *)
Definition pickCallback (am : Ammo) (targetX : R) (b : Building)
  (acc : option Building * ExtNum) : option Building * ExtNum :=
  let (bestBattery, minDist) := acc in
  if hasAmmo am b then
    let dist := Rabs (b_x b + b_width b / 2 - targetX) in
    if ltExt dist minDist then (Some b, Finite dist) else acc
  else acc.

Definition pickBattery (am : Ammo) (targetX : R) (batteries : list Building)
  : option Building * ExtNum :=
  fold_left (fun acc b => pickCallback am targetX b acc) batteries (None, Infinity).

Definition isPlaying (p : Phase) : bool :=
  match p with playing => true | _ => false end.

Definition fireMissile (targetX targetY : R) (a : App) : App :=
  if negb (isPlaying (gameState a)) || showHelp a then a
  else
    let batteries := filter isActiveBattery (buildingsRef a) in
    match batteries with
    | [] => a
    | _ =>
        match fst (pickBattery (ammo a) targetX batteries) with
        | None => a
        | Some bestBattery =>
            let a1 :=
              match b_batterySide bestBattery with
              | Some side => setAmmo (ammoSet (ammo a) side (ammoAt (ammo a) side - 1)) a
              | None => a
              end in
            setNextId (S (nextIdRef a1))
              (setMissiles
                 (missilesRef a1 ++
                    [mkMissile (nextIdRef a1)
                               (mkPoint (b_x bestBattery + b_width bestBattery / 2) (b_y bestBattery))
                               (mkPoint (b_x bestBattery + b_width bestBattery / 2) (b_y bestBattery))
                               (mkPoint targetX targetY)
                               MISSILE_SPEED
                               "#44ccff"
                               false]) a1)
        end
    end.

(** *** update: the frame callback *)

(** [xs.filter (callback)] for a callback that also mutates the element it
    is given and the component: the callback returns the element as it is
    afterwards when it keeps it, and the component as it is afterwards.
    The elements are visited in index order; what the callback appends to
    the array under traversal is not visited. *)
Fixpoint filterRef {X : Type} (callback : X -> App -> option X * App)
  (xs : list X) (a : App) : list X * App :=
  match xs with
  | [] => ([], a)
  | x :: rest =>
      let (kept, a1) := callback x a in
      let (others, a2) := filterRef callback rest a1 in
      (match kept with Some x' => x' :: others | None => others end, a2)
  end.

(** Spawn enemies.  [sc] is the [score] of the callback's closure. *)
Definition spawnRate (sc : Z) (d : Difficulty) : R :=
  let baseSpawnRate := Rmax 500 (2000 - (IZR sc / 100) * 200) in
  baseSpawnRate * spawnMult (getDifficultyModifiers d).

Definition spawnDue (time : R) (sc : Z) (a : App) : bool :=
  Rgtb (time - lastEnemySpawnRef a) (spawnRate sc (difficulty a)).

Definition spawnPhase (time : R) (sc : Z) (a : App) : App :=
  if spawnDue time sc a then setLastEnemySpawn time (spawnEnemy a) else a.

(** Update missiles. *)
Definition distToTarget (m : Missile) : R :=
  let dx := px (m_target m) - px (m_current m) in
  let dy := py (m_target m) - py (m_current m) in
  sqrt (dx * dx + dy * dy).

Definition hasArrived (m : Missile) : bool := Rltb (distToTarget m) (m_speed m).

Definition destroy (b : Building) : Building :=
  mkBuilding (b_x b) (b_y b) (b_width b) (b_height b) true (b_type b) (b_id b)
             (b_batterySide b).

(** The body of [buildingsRef.current.forEach] at an enemy impact. *)
Definition impact (target : Point) (b : Building) : Building :=
  if negb (b_isDestroyed b) then
    let bx := b_x b + b_width b / 2 in
    let by' := b_y b + b_height b / 2 in
    let d := sqrt ((bx - px target) ^ 2 + (by' - py target) ^ 2) in
    if Rltb d 30 then destroy b else b
  else b.

Definition advance (m : Missile) : Missile :=
  let dx := px (m_target m) - px (m_current m) in
  let dy := py (m_target m) - py (m_current m) in
  let dist := sqrt (dx * dx + dy * dy) in
  let vx := (dx / dist) * m_speed m in
  let vy := (dy / dist) * m_speed m in
  mkMissile (m_id m) (m_start m)
            (mkPoint (px (m_current m) + vx) (py (m_current m) + vy))
            (m_target m) (m_speed m) (m_color m) (m_isEnemy m).

Definition missileCallback (m : Missile) (a : App) : option Missile * App :=
  if hasArrived m then
    if m_isEnemy m then
      let a := createExplosion (px (m_target m)) (py (m_target m)) a in
      (None, setBuildings (map (impact (m_target m)) (buildingsRef a)) a)
    else
      (None, createExplosion (px (m_target m)) (py (m_target m)) a)
  else (Some (advance m), a).

Definition updateMissiles (a : App) : App :=
  let (kept, a1) := filterRef missileCallback (missilesRef a) a in
  setMissiles kept a1.

(** Update explosions. *)
Definition distToBlast (e : Explosion) (m : Missile) : R :=
  sqrt ((px (m_current m) - e_x e) ^ 2 + (py (m_current m) - e_y e) ^ 2).

Definition catchCallback (e : Explosion) (m : Missile) (a : App)
  : option Missile * App :=
  if m_isEnemy m then
    if Rltb (distToBlast e m) (e_radius e) then
      (None,
       createExplosion (px (m_current m)) (py (m_current m))
                       (setScore (score a + 20) a))
    else (Some m, a)
  else (Some m, a).

(** [e.timer--] and the new radius. *)
Definition grow (e : Explosion) : Explosion :=
  let timer := (e_timer e - 1)%Z in
  let progress := 1 - IZR timer / IZR EXPLOSION_DURATION in
  mkExplosion (e_x e) (e_y e) (sin (progress * PI) * e_maxRadius e)
              (e_maxRadius e) timer (e_id e).

Definition explosionCallback (e : Explosion) (a : App) : option Explosion * App :=
  let e := grow e in
  let (kept, a1) := filterRef (catchCallback e) (missilesRef a) a in
  let a2 := setMissiles kept a1 in
  (if (0 <? e_timer e)%Z then Some e else None, a2).

(** [explosionsRef.current = explosionsRef.current.filter (...)]: inside the
    callback [createExplosion] appends to the array that is being filtered
    ([explosionsRef a1] below holds those appended elements); the assignment
    then replaces the cell by the array that [filter] returns. *)
Definition updateExplosions (a : App) : App :=
  let (kept, a1) := filterRef explosionCallback (explosionsRef a) a in
  setExplosions kept a1.

(** Update particles. *)
Definition particleCallback (p : Particle) (a : App) : option Particle * App :=
  let p := mkParticle (p_x p + p_vx p) (p_y p + p_vy p) (p_vx p) (p_vy p)
                      (p_life p - 2 / 100) (p_color p) in
  (if Rgtb (p_life p) 0 then Some p else None, a).

Definition updateParticles (a : App) : App :=
  let (kept, a1) := filterRef particleCallback (particlesRef a) a in
  setParticles kept a1.

(** Check win and loss.  [sc] is the [score] of the callback's closure. *)
Definition checkWinLoss (sc : Z) (a : App) : App :=
  if (TARGET_SCORE <=? sc)%Z then setGameState won a
  else
    let activeBatteries := filter isActiveBattery (buildingsRef a) in
    if Nat.eqb (length activeBatteries) 0 then setGameState lost a else a.

Definition update (time : R) (a : App) : App :=
  match canvas a with
  | None => a
  | Some _ =>
      if showHelp a then a
      else
        let sc := score a in
        let a := spawnPhase time sc a in
        let a := updateMissiles a in
        let a := updateExplosions a in
        let a := updateParticles a in
        checkWinLoss sc a
  end.

(** ** The component: events and the effect *)

(** What the page reads from the browser when an effect runs:
    [window.innerWidth], [window.innerHeight] and two successive readings of
    [performance.now ()]. *)
Record Browser := mkBrowser {
  innerWidth : R; innerHeight : R; now : R; later : R }.

(** The body of the [useEffect]: in [playing] it initialises the game and
    rebases the spawn reference (and requests a frame); otherwise it only
    cancels the pending frame. *)
Definition effect (width height clock : R) (a : App) : App :=
  if isPlaying (gameState a)
  then setLastEnemySpawn clock (initGame width height a)
  else a.

Definition eqPhase (p q : Phase) : bool :=
  match p, q with
  | menu, menu | playing, playing | won, won | lost, lost => true
  | _, _ => false
  end.

(** React compares the [ammo] objects by identity.  A new object is only
    built by [fireMissile], with one pool changed, so comparing the contents
    gives the same answer. *)
Definition eqAmmo (x y : Ammo) : bool :=
  (a_left x =? a_left y)%Z && (a_center x =? a_center y)%Z && (a_right x =? a_right y)%Z.

Definition eqDifficulty (p q : Difficulty) : bool :=
  match p, q with
  | easy, easy | medium, medium | hard, hard => true
  | _, _ => false
  end.

Definition eqLanguage (p q : Language) : bool :=
  match p, q with
  | en, en | zh, zh => true
  | _, _ => false
  end.

(** The effect's dependencies are [gameState], [initGame], [update],
    [language] and [score]; [initGame] never changes, and [update] is
    rebuilt when [gameState], [score], [ammo], [showHelp] or [difficulty]
    changes (the last one also through [spawnEnemy]). *)
Definition depsChanged (a b : App) : bool :=
  negb (eqPhase (gameState a) (gameState b)
        && (score a =? score b)%Z
        && eqAmmo (ammo a) (ammo b)
        && eqb (showHelp a) (showHelp b)
        && eqDifficulty (difficulty a) (difficulty b)
        && eqLanguage (language a) (language b)).

(** A render after a handler: when a dependency changed the effect runs;
    the setters called by [initGame] can cause one more render, after which
    the effect runs again. *)
Definition commit (w : Browser) (before after : App) : App :=
  if depsChanged before after then
    let c := effect (innerWidth w) (innerHeight w) (now w) after in
    if depsChanged after c
    then effect (innerWidth w) (innerHeight w) (later w) c
    else c
  else after.

Inductive Event :=
| Frame (time : R)
| Pointer (x y : R)
| StartButton
| RetryButton
| HelpButton
| CloseButton
| DifficultySelect (d : Difficulty)
| LanguageButton.

Definition toggle (l : Language) : Language :=
  match l with en => zh | zh => en end.

(** The handler of an event, [None] when the page offers no such event in
    the state: a frame is pending only in [playing], and every button is
    rendered under a condition on [gameState] or [showHelp]. *)
Definition handle (ev : Event) (a : App) : option App :=
  match ev with
  | Frame time =>
      if isPlaying (gameState a) then Some (update time a) else None
  | Pointer x y =>
      Some (if negb (isPlaying (gameState a)) || showHelp a then a
            else fireMissile x y a)
  | StartButton =>
      match gameState a with
      | menu => Some (setGameState playing a)
      | _ => None
      end
  | RetryButton =>
      match gameState a with
      | won | lost => Some (setGameState playing a)
      | _ => None
      end
  | HelpButton =>
      if isPlaying (gameState a) then Some (setShowHelp true a) else None
  | CloseButton =>
      if showHelp a then Some (setShowHelp false a) else None
  | DifficultySelect d =>
      match gameState a with
      | menu | playing => Some (setDifficulty d a)
      | _ => None
      end
  | LanguageButton => Some (setLanguage (toggle (language a)) a)
  end.

Definition dispatch (w : Browser) (ev : Event) (a : App) : option App :=
  match handle ev a with
  | Some b => Some (commit w a b)
  | None => None
  end.

(** The component after mounting: the initial values of the [useState] and
    [useRef] cells, and a canvas of the default size. *)
Definition mounted : App :=
  mkApp menu 0 INITIAL_AMMO zh medium false [] [] [] [] 0 0
        (Some (mkCanvas 300 150)) 0.

Inductive Reachable : App -> Prop :=
| reach_mounted : Reachable mounted
| reach_dispatch : forall w ev a b,
    Reachable a -> dispatch w ev a = Some b -> Reachable b.

End Simulation.

(** * Properties *)

(** ** Comparisons *)

Lemma Rltb_true (x y : R) : Rltb x y = true <-> x < y.
Proof.
  unfold Rltb. destruct (Rlt_dec x y); split; intros; try discriminate; tauto.
Qed.

Lemma Rltb_false (x y : R) : Rltb x y = false <-> y <= x.
Proof.
  unfold Rltb. destruct (Rlt_dec x y); split; intros; try discriminate;
    try reflexivity; lra.
Qed.

Lemma Rltb_intro_true (x y : R) : x < y -> Rltb x y = true.
Proof. apply Rltb_true. Qed.

Lemma Rltb_intro_false (x y : R) : y <= x -> Rltb x y = false.
Proof. apply Rltb_false. Qed.

(** ** What the operations leave alone *)

(** The cells that no phase of the frame callback writes before the final
    check: everything of the [useState] part but [score], the canvas and the
    spawn reference. *)
Definition sameControl (a b : App) : Prop :=
  gameState a = gameState b /\ ammo a = ammo b /\ language a = language b
  /\ difficulty a = difficulty b /\ showHelp a = showHelp b
  /\ canvas a = canvas b /\ lastEnemySpawnRef a = lastEnemySpawnRef b.

Lemma sameControl_refl a : sameControl a a.
Proof. unfold sameControl. tauto. Qed.

Lemma sameControl_trans a b c : sameControl a b -> sameControl b c -> sameControl a c.
Proof.
  unfold sameControl. intros (?&?&?&?&?&?&?) (?&?&?&?&?&?&?).
  repeat split; congruence.
Qed.

Lemma filterRef_snd_rel {X : Type} (P : App -> App -> Prop)
  (callback : X -> App -> option X * App) :
  (forall a, P a a) ->
  (forall a b c, P a b -> P b c -> P a c) ->
  (forall x a, P a (snd (callback x a))) ->
  forall xs a, P a (snd (filterRef callback xs a)).
Proof.
  intros Hrefl Htrans Hcb xs. induction xs as [|x rest IH]; intros a; simpl.
  - apply Hrefl.
  - specialize (Hcb x a). destruct (callback x a) as [kept a1]. simpl in Hcb.
    specialize (IH a1). destruct (filterRef callback rest a1) as [others a2].
    simpl in *. eapply Htrans; eauto.
Qed.

Section Frames.

Variable random : nat -> R.

Lemma pushParticles_control n x y a :
  sameControl a (pushParticles random n x y a).
Proof.
  revert a. induction n as [|n IH]; intros a; simpl.
  - apply sameControl_refl.
  - eapply sameControl_trans; [|apply IH].
    unfold sameControl; simpl; tauto.
Qed.

Lemma createExplosion_control x y a :
  sameControl a (createExplosion random x y a).
Proof.
  unfold createExplosion.
  eapply sameControl_trans; [|apply pushParticles_control].
  unfold sameControl; simpl; tauto.
Qed.

Lemma missileCallback_control m a :
  sameControl a (snd (missileCallback random m a)).
Proof.
  unfold missileCallback.
  destruct (hasArrived m); [|apply sameControl_refl].
  destruct (m_isEnemy m); simpl.
  - eapply sameControl_trans
      with (b := createExplosion random (px (m_target m)) (py (m_target m)) a);
      [apply createExplosion_control|].
    unfold sameControl; simpl; tauto.
  - apply createExplosion_control.
Qed.

Lemma updateMissiles_control a : sameControl a (updateMissiles random a).
Proof.
  unfold updateMissiles.
  pose proof (filterRef_snd_rel sameControl (missileCallback random)
                sameControl_refl sameControl_trans missileCallback_control
                (missilesRef a) a) as H.
  destruct (filterRef _ _ a) as [kept a1]. simpl in H.
  eapply sameControl_trans; [exact H|]. unfold sameControl; simpl; tauto.
Qed.

Lemma catchCallback_control e m a :
  sameControl a (snd (catchCallback random e m a)).
Proof.
  unfold catchCallback.
  destruct (m_isEnemy m); [|apply sameControl_refl].
  destruct (Rltb _ _); [|apply sameControl_refl]. simpl.
  eapply sameControl_trans; [|apply createExplosion_control].
  unfold sameControl; simpl; tauto.
Qed.

Lemma explosionCallback_control e a :
  sameControl a (snd (explosionCallback random e a)).
Proof.
  unfold explosionCallback.
  pose proof (filterRef_snd_rel sameControl (catchCallback random (grow e))
                sameControl_refl sameControl_trans
                (catchCallback_control (grow e)) (missilesRef a) a) as H.
  destruct (filterRef _ _ a) as [kept a1]. simpl in *.
  eapply sameControl_trans; [exact H|]. unfold sameControl; simpl; tauto.
Qed.

Lemma updateExplosions_control a : sameControl a (updateExplosions random a).
Proof.
  unfold updateExplosions.
  pose proof (filterRef_snd_rel sameControl (explosionCallback random)
                sameControl_refl sameControl_trans explosionCallback_control
                (explosionsRef a) a) as H.
  destruct (filterRef _ _ a) as [kept a1]. simpl in H.
  eapply sameControl_trans; [exact H|]. unfold sameControl; simpl; tauto.
Qed.

Lemma filterRef_particles ps a :
  snd (filterRef particleCallback ps a) = a.
Proof.
  revert a. induction ps as [|p ps IH]; intros a; simpl; [reflexivity|].
  specialize (IH a). destruct (filterRef particleCallback ps a). simpl in *.
  exact IH.
Qed.

Lemma updateParticles_eq a :
  updateParticles a =
  setParticles (fst (filterRef particleCallback (particlesRef a) a)) a.
Proof.
  unfold updateParticles.
  pose proof (filterRef_particles (particlesRef a) a) as H.
  destruct (filterRef particleCallback (particlesRef a) a). simpl in *.
  now subst.
Qed.

Lemma updateParticles_control a : sameControl a (updateParticles a).
Proof. rewrite updateParticles_eq. unfold sameControl; simpl; tauto. Qed.

Lemma spawnEnemy_control a :
  sameControl a (spawnEnemy random a).
Proof.
  unfold spawnEnemy. destruct (canvas a); [|apply sameControl_refl].
  destruct (filter isLive (buildingsRef a)); [apply sameControl_refl|].
  unfold sameControl; simpl; tauto.
Qed.

End Frames.

(** ** The frame callback, phase by phase *)

Section Update.

Variable random : nat -> R.

Lemma update_phases time a :
  canvas a <> None -> showHelp a = false ->
  update random time a =
  checkWinLoss (score a)
    (updateParticles
       (updateExplosions random
          (updateMissiles random (spawnPhase random time (score a) a)))).
Proof.
  intros Hc Hh. unfold update. destruct (canvas a); [|congruence].
  now rewrite Hh.
Qed.

Lemma spawnPhase_session time sc a :
  gameState (spawnPhase random time sc a) = gameState a
  /\ ammo (spawnPhase random time sc a) = ammo a
  /\ showHelp (spawnPhase random time sc a) = showHelp a
  /\ canvas (spawnPhase random time sc a) = canvas a
  /\ difficulty (spawnPhase random time sc a) = difficulty a
  /\ language (spawnPhase random time sc a) = language a
  /\ score (spawnPhase random time sc a) = score a
  /\ buildingsRef (spawnPhase random time sc a) = buildingsRef a.
Proof.
  unfold spawnPhase. destruct (spawnDue time sc a); [|tauto].
  destruct (spawnEnemy_control random a) as (?&?&?&?&?&?&?).
  assert (score (spawnEnemy random a) = score a
          /\ buildingsRef (spawnEnemy random a) = buildingsRef a) as [? ?].
  { unfold spawnEnemy. destruct (canvas a); [|tauto].
    destruct (filter isLive (buildingsRef a)); simpl; tauto. }
  simpl. repeat split; congruence.
Qed.

(** The state in which the final check of [update] runs. *)
Definition beforeCheck (time : R) (a : App) : App :=
  updateParticles
    (updateExplosions random
       (updateMissiles random (spawnPhase random time (score a) a))).

Lemma beforeCheck_session time a :
  gameState (beforeCheck time a) = gameState a
  /\ ammo (beforeCheck time a) = ammo a
  /\ showHelp (beforeCheck time a) = showHelp a
  /\ canvas (beforeCheck time a) = canvas a
  /\ difficulty (beforeCheck time a) = difficulty a
  /\ language (beforeCheck time a) = language a.
Proof.
  unfold beforeCheck.
  set (a1 := spawnPhase random time (score a) a).
  set (a2 := updateMissiles random a1).
  set (a3 := updateExplosions random a2).
  destruct (spawnPhase_session time (score a) a)
    as (Hg1 & Ha1 & Hh1 & Hc1 & Hd1 & Hl1 & _).
  destruct (updateMissiles_control random a1)
    as (Hg2 & Ha2 & Hl2 & Hd2 & Hh2 & Hc2 & _).
  destruct (updateExplosions_control random a2)
    as (Hg3 & Ha3 & Hl3 & Hd3 & Hh3 & Hc3 & _).
  destruct (updateParticles_control a3)
    as (Hg4 & Ha4 & Hl4 & Hd4 & Hh4 & Hc4 & _).
  fold a1 in Hg1, Ha1, Hh1, Hc1, Hd1, Hl1.
  fold a2 in Hg2, Ha2, Hl2, Hd2, Hh2, Hc2, Hg3, Ha3, Hl3, Hd3, Hh3, Hc3.
  fold a3 in Hg3, Ha3, Hl3, Hd3, Hh3, Hc3, Hg4, Ha4, Hl4, Hd4, Hh4, Hc4.
  repeat split; congruence.
Qed.

Lemma checkWinLoss_frame sc a :
  score (checkWinLoss sc a) = score a
  /\ ammo (checkWinLoss sc a) = ammo a
  /\ showHelp (checkWinLoss sc a) = showHelp a
  /\ canvas (checkWinLoss sc a) = canvas a
  /\ difficulty (checkWinLoss sc a) = difficulty a
  /\ language (checkWinLoss sc a) = language a
  /\ missilesRef (checkWinLoss sc a) = missilesRef a
  /\ explosionsRef (checkWinLoss sc a) = explosionsRef a
  /\ buildingsRef (checkWinLoss sc a) = buildingsRef a
  /\ particlesRef (checkWinLoss sc a) = particlesRef a
  /\ lastEnemySpawnRef (checkWinLoss sc a) = lastEnemySpawnRef a.
Proof.
  unfold checkWinLoss. destruct (TARGET_SCORE <=? sc)%Z; [simpl; tauto|].
  destruct (Nat.eqb _ 0); simpl; tauto.
Qed.

Lemma update_ammo time a : ammo (update random time a) = ammo a.
Proof.
  unfold update. destruct (canvas a) eqn:Hc; [|reflexivity].
  destruct (showHelp a) eqn:Hh; [reflexivity|].
  destruct (checkWinLoss_frame (score a) (beforeCheck time a)) as (_&H&_).
  unfold beforeCheck in H. rewrite H.
  apply (beforeCheck_session time a).
Qed.

Lemma update_gameState time a :
  gameState (update random time a) = gameState a
  \/ gameState (update random time a) = won
  \/ gameState (update random time a) = lost.
Proof.
  unfold update. destruct (canvas a); [|now left].
  destruct (showHelp a); [now left|].
  fold (beforeCheck time a). unfold checkWinLoss.
  destruct (TARGET_SCORE <=? score a)%Z; [right; left; reflexivity|].
  destruct (Nat.eqb _ 0); [right; right; reflexivity|].
  left. apply beforeCheck_session.
Qed.

End Update.

(** ** The effect and the commit *)

Definition isCity (b : Building) : bool :=
  match b_type b with city => true | battery => false end.

(** The configuration a session starts from, for a play area of the given
    size. *)
Definition isFresh (width height : R) (b : App) : Prop :=
  score b = 0%Z /\ ammo b = INITIAL_AMMO
  /\ missilesRef b = [] /\ explosionsRef b = [] /\ particlesRef b = []
  /\ buildingsRef b = layout width height.

Lemma eqPhase_refl p : eqPhase p p = true.
Proof. now destruct p. Qed.

Lemma eqPhase_true p q : eqPhase p q = true -> p = q.
Proof. destruct p, q; simpl; congruence. Qed.

Lemma eqAmmo_refl x : eqAmmo x x = true.
Proof. unfold eqAmmo. now rewrite !Z.eqb_refl. Qed.

Lemma eqDifficulty_refl d : eqDifficulty d d = true.
Proof. now destruct d. Qed.

Lemma eqLanguage_refl l : eqLanguage l l = true.
Proof. now destruct l. Qed.

Lemma depsChanged_refl a : depsChanged a a = false.
Proof.
  unfold depsChanged.
  now rewrite eqPhase_refl, Z.eqb_refl, eqAmmo_refl, eqb_reflx,
    eqDifficulty_refl, eqLanguage_refl.
Qed.

Lemma depsChanged_phase a b :
  gameState a <> gameState b -> depsChanged a b = true.
Proof.
  intros H. unfold depsChanged.
  destruct (eqPhase (gameState a) (gameState b)) eqn:E; [|reflexivity].
  apply eqPhase_true in E. contradiction.
Qed.

Lemma initGame_gameState width height a :
  gameState (initGame width height a) = gameState a.
Proof. unfold initGame. now destruct (canvas a). Qed.

Lemma initGame_canvas width height a :
  canvas a <> None -> canvas (initGame width height a) <> None.
Proof. unfold initGame. destruct (canvas a); simpl; congruence. Qed.

Lemma initGame_fresh width height a :
  canvas a <> None -> isFresh width height (initGame width height a).
Proof.
  unfold initGame, isFresh. destruct (canvas a); [|congruence]. simpl. tauto.
Qed.

Lemma effect_gameState width height clock a :
  gameState (effect width height clock a) = gameState a.
Proof.
  unfold effect. destruct (isPlaying (gameState a)); [|reflexivity].
  simpl. apply initGame_gameState.
Qed.

Lemma effect_fresh width height clock a :
  gameState a = playing -> canvas a <> None ->
  isFresh width height (effect width height clock a)
  /\ lastEnemySpawnRef (effect width height clock a) = clock
  /\ canvas (effect width height clock a) <> None.
Proof.
  intros Hp Hc. unfold effect. rewrite Hp. simpl.
  split; [|split; [reflexivity|now apply initGame_canvas]].
  apply (initGame_fresh width height a Hc).
Qed.

Lemma commit_gameState w a b : gameState (commit w a b) = gameState b.
Proof.
  unfold commit. destruct (depsChanged a b); [|reflexivity].
  destruct (depsChanged b _); now rewrite ?effect_gameState.
Qed.

(** A commit that runs the effect in [playing] leaves a fresh game, with the
    spawn reference at one of the two clock readings. *)
Lemma commit_fresh w a b :
  depsChanged a b = true -> gameState b = playing -> canvas b <> None ->
  isFresh (innerWidth w) (innerHeight w) (commit w a b)
  /\ (lastEnemySpawnRef (commit w a b) = now w
      \/ lastEnemySpawnRef (commit w a b) = later w).
Proof.
  intros Hd Hp Hc. unfold commit. rewrite Hd.
  destruct (effect_fresh (innerWidth w) (innerHeight w) (now w) b Hp Hc)
    as (Hf & Hl & Hc').
  destruct (depsChanged b _).
  - assert (Hp' : gameState (effect (innerWidth w) (innerHeight w) (now w) b) = playing)
      by now rewrite effect_gameState.
    destruct (effect_fresh (innerWidth w) (innerHeight w) (later w) _ Hp' Hc')
      as (Hf2 & Hl2 & _).
    split; [exact Hf2|now right].
  - split; [exact Hf|now left].
Qed.

Lemma layout_census width height :
  length (filter isBattery (layout width height)) = 3%nat
  /\ length (filter isCity (layout width height)) = 6%nat
  /\ forallb isLive (layout width height) = true.
Proof. repeat split. Qed.

Lemma handle_gameState random ev a b :
  handle random ev a = Some b ->
  gameState b = gameState a
  \/ (gameState a = menu /\ gameState b = playing /\ ev = StartButton
      /\ b = setGameState playing a)
  \/ ((gameState a = won \/ gameState a = lost) /\ gameState b = playing
      /\ ev = RetryButton /\ b = setGameState playing a)
  \/ (gameState a = playing /\ (gameState b = won \/ gameState b = lost)
      /\ exists time, b = update random time a).
Proof.
  destruct ev; simpl.
  - destruct (gameState a) eqn:Hp; simpl; try discriminate.
    intros H; injection H as <-.
    destruct (update_gameState random time a) as [H|[H|H]]; rewrite H; auto;
      right; right; right; eauto.
  - intros H; injection H as <-. left.
    destruct (negb _ || _); [reflexivity|].
    unfold fireMissile.
    destruct (negb _ || _); [reflexivity|].
    destruct (filter isActiveBattery (buildingsRef a)); [reflexivity|].
    destruct (fst _); [|reflexivity].
    destruct (b_batterySide b0); reflexivity.
  - destruct (gameState a) eqn:Hp; try discriminate.
    intros H; injection H as <-. right; left. simpl. auto.
  - destruct (gameState a) eqn:Hp; try discriminate;
      intros H; injection H as <-; right; right; left; simpl; auto.
  - destruct (isPlaying (gameState a)); try discriminate.
    intros H; injection H as <-. now left.
  - destruct (showHelp a); try discriminate.
    intros H; injection H as <-. now left.
  - destruct (gameState a) eqn:Hp; try discriminate;
      intros H; injection H as <-; left; simpl; congruence.
  - intros H; injection H as <-. now left.
Qed.

(** ** C5: entering [playing] *)

(** C5. From every other phase ([menu], [won] or [lost]) the page offers an
    event that enters [playing], and whatever the component held before,
    every entry into [playing] leaves the same configuration: score 0, ammo
    20/40/20, no missile, no explosion, no particle, and the layout computed
    from the window size alone, which has 3 batteries and 6 cities, none of
    them destroyed. *)
Theorem entering_playing_resets (random : nat -> R) (w : Browser) (a : App) :
  gameState a <> playing -> canvas a <> None ->
  (exists ev b, dispatch random w ev a = Some b /\ gameState b = playing)
  /\ forall ev b,
      dispatch random w ev a = Some b -> gameState b = playing ->
      score b = 0%Z
      /\ ammo b = mkAmmo 20 40 20
      /\ missilesRef b = [] /\ explosionsRef b = [] /\ particlesRef b = []
      /\ buildingsRef b = layout (innerWidth w) (innerHeight w)
      /\ length (filter isBattery (buildingsRef b)) = 3%nat
      /\ length (filter isCity (buildingsRef b)) = 6%nat
      /\ forallb isLive (buildingsRef b) = true.
Proof.
  intros Hnp Hc. split.
  - destruct (gameState a) eqn:Hp; try congruence.
    + exists StartButton. eexists. unfold dispatch. simpl. rewrite Hp.
      split; [reflexivity|]. now rewrite commit_gameState.
    + exists RetryButton. eexists. unfold dispatch. simpl. rewrite Hp.
      split; [reflexivity|]. now rewrite commit_gameState.
    + exists RetryButton. eexists. unfold dispatch. simpl. rewrite Hp.
      split; [reflexivity|]. now rewrite commit_gameState.
  - intros ev b Hd Hb. unfold dispatch in Hd.
    destruct (handle random ev a) as [b'|] eqn:Hh; [|discriminate].
    injection Hd as <-. rewrite commit_gameState in Hb.
    assert (Hb' : b' = setGameState playing a).
    { destruct (handle_gameState random ev a b' Hh)
        as [H|[(_&_&_&H)|[(_&_&_&H)|(H&_)]]]; congruence. }
    subst b'.
    destruct (commit_fresh w a (setGameState playing a)) as [(H1&H2&H3&H4&H5&H6) _].
    + apply depsChanged_phase. simpl. exact Hnp.
    + reflexivity.
    + exact Hc.
    + rewrite H6. destruct (layout_census (innerWidth w) (innerHeight w)) as (?&?&?).
      repeat split; assumption.
Qed.

Lemma entering_playing_resets_witness :
  gameState mounted <> playing /\ canvas mounted <> None
  /\ forall ev b,
      dispatch (fun _ => 0) (mkBrowser 800 600 0 0) ev mounted = Some b ->
      gameState b = playing ->
      score b = 0%Z
      /\ ammo b = mkAmmo 20 40 20
      /\ missilesRef b = [] /\ explosionsRef b = [] /\ particlesRef b = []
      /\ buildingsRef b = layout 800 600
      /\ length (filter isBattery (buildingsRef b)) = 3%nat
      /\ length (filter isCity (buildingsRef b)) = 6%nat
      /\ forallb isLive (buildingsRef b) = true.
Proof.
  assert (H1 : gameState mounted <> playing) by (simpl; discriminate).
  assert (H2 : canvas mounted <> None) by (simpl; discriminate).
  split; [exact H1|]. split; [exact H2|].
  exact (proj2 (entering_playing_resets (fun _ => 0) (mkBrowser 800 600 0 0)
                  mounted H1 H2)).
Defined.

(** ** C1: the phase *)





(** ** C4: firing *)

(** Horizontal distance from a building's centre to the aimed abscissa. *)
Definition aimDist (targetX : R) (b : Building) : R :=
  Rabs (b_x b + b_width b / 2 - targetX).

(** A battery that [fireMissile] may choose. *)
Definition eligible (a : App) (b : Building) : Prop :=
  In b (buildingsRef a) /\ isActiveBattery b = true /\ hasAmmo (ammo a) b = true.

Definition ammoNonneg (am : Ammo) : Prop :=
  forall s, (0 <= ammoAt am s)%Z.

(** What the loop of [fireMissile] has established after the batteries
    [seen]. *)
Definition pickInv (am : Ammo) (targetX : R) (seen : list Building)
  (acc : option Building * ExtNum) : Prop :=
  match acc with
  | (None, Infinity) => forall b, In b seen -> hasAmmo am b = false
  | (Some b, Finite d) =>
      In b seen /\ hasAmmo am b = true /\ d = aimDist targetX b
      /\ forall b', In b' seen -> hasAmmo am b' = true -> d <= aimDist targetX b'
  | _ => False
  end.

Lemma pickCallback_inv am targetX seen b acc :
  pickInv am targetX seen acc ->
  pickInv am targetX (seen ++ [b]) (pickCallback am targetX b acc).
Proof.
  intros H. unfold pickCallback. destruct acc as [best minDist].
  destruct (hasAmmo am b) eqn:Hb.
  - fold (aimDist targetX b).
    destruct best as [b0|], minDist as [d|]; simpl in H; try contradiction; simpl.
    + destruct H as (Hin & Ham & Hd & Hmin).
      destruct (Rltb (aimDist targetX b) d) eqn:Hlt; simpl.
      * apply Rltb_true in Hlt. repeat split; auto.
        -- apply in_or_app. right. now left.
        -- intros b' Hin' Ham'. apply in_app_or in Hin' as [Hin'|[<-|[]]].
           ++ specialize (Hmin b' Hin' Ham'). lra.
           ++ lra.
      * apply Rltb_false in Hlt. repeat split; auto.
        -- apply in_or_app. now left.
        -- intros b' Hin' Ham'. apply in_app_or in Hin' as [Hin'|[<-|[]]]; auto.
    + repeat split; auto.
      * apply in_or_app. right. now left.
      * intros b' Hin' Ham'. apply in_app_or in Hin' as [Hin'|[<-|[]]].
        -- rewrite (H b' Hin') in Ham'. discriminate.
        -- lra.
  - destruct best as [b0|], minDist as [d|]; simpl in H; try contradiction; simpl.
    + destruct H as (Hin & Ham & Hd & Hmin). repeat split; auto.
      * apply in_or_app. now left.
      * intros b' Hin' Ham'. apply in_app_or in Hin' as [Hin'|[<-|[]]]; auto.
        congruence.
    + intros b' Hin'. apply in_app_or in Hin' as [Hin'|[<-|[]]]; auto.
Qed.

Lemma pickFold_inv am targetX l : forall seen acc,
  pickInv am targetX seen acc ->
  pickInv am targetX (seen ++ l)
    (fold_left (fun acc b => pickCallback am targetX b acc) l acc).
Proof.
  induction l as [|b l IH]; intros seen acc H; simpl.
  - now rewrite app_nil_r.
  - replace (seen ++ b :: l) with ((seen ++ [b]) ++ l)
      by (rewrite <- app_assoc; reflexivity).
    apply IH. now apply pickCallback_inv.
Qed.

Lemma pickBattery_inv am targetX batteries :
  pickInv am targetX batteries (pickBattery am targetX batteries).
Proof.
  unfold pickBattery.
  apply (pickFold_inv am targetX batteries [] (None, Infinity)).
  simpl. intros b [].
Qed.

(** The result of [fireMissile] once the guard has let the call through. *)
Definition launch (targetX targetY : R) (a : App) (bestBattery : Building) : App :=
  let a1 :=
    match b_batterySide bestBattery with
    | Some side => setAmmo (ammoSet (ammo a) side (ammoAt (ammo a) side - 1)) a
    | None => a
    end in
  setNextId (S (nextIdRef a1))
    (setMissiles
       (missilesRef a1 ++
          [mkMissile (nextIdRef a1) (muzzleOf bestBattery) (muzzleOf bestBattery)
                     (mkPoint targetX targetY) MISSILE_SPEED "#44ccff" false]) a1).

Lemma fireMissile_guarded targetX targetY a :
  gameState a = playing -> showHelp a = false ->
  fireMissile targetX targetY a =
  match fst (pickBattery (ammo a) targetX (filter isActiveBattery (buildingsRef a))) with
  | None => a
  | Some bestBattery => launch targetX targetY a bestBattery
  end.
Proof.
  intros Hp Hh. unfold fireMissile. rewrite Hp, Hh. simpl.
  destruct (filter isActiveBattery (buildingsRef a)) eqn:Hf; reflexivity.
Qed.

Lemma ammoAt_ammoSet_same am side v : ammoAt (ammoSet am side v) side = v.
Proof. now destruct side. Qed.

Lemma ammoAt_ammoSet_other am side v s :
  s <> side -> ammoAt (ammoSet am side v) s = ammoAt am s.
Proof. destruct side, s; simpl; congruence. Qed.

Lemma fireMissile_ammo targetX targetY a :
  ammo (fireMissile targetX targetY a) = ammo a
  \/ exists b side,
       eligible a b /\ b_batterySide b = Some side
       /\ gameState a = playing /\ showHelp a = false
       /\ (forall b', eligible a b' -> aimDist targetX b <= aimDist targetX b')
       /\ fireMissile targetX targetY a = launch targetX targetY a b
       /\ ammo (fireMissile targetX targetY a)
          = ammoSet (ammo a) side (ammoAt (ammo a) side - 1).
Proof.
  destruct (gameState a) eqn:Hp; try (left; unfold fireMissile; rewrite Hp; reflexivity).
  destruct (showHelp a) eqn:Hh; [left; unfold fireMissile; rewrite Hp, Hh; reflexivity|].
  rewrite (fireMissile_guarded targetX targetY a Hp Hh).
  pose proof (pickBattery_inv (ammo a) targetX
                (filter isActiveBattery (buildingsRef a))) as Hinv.
  destruct (pickBattery _ _ _) as [[b|] [d|]]; simpl in *; try contradiction;
    [|now left].
  destruct Hinv as (Hin & Ham & Hd & Hmin).
  apply filter_In in Hin as [Hin Hact].
  right. unfold hasAmmo in Ham.
  destruct (b_batterySide b) as [side|] eqn:Hside; [|discriminate].
  exists b, side. repeat split; auto.
  - unfold hasAmmo. now rewrite Hside.
  - intros b' (Hin' & Hact' & Ham'). rewrite <- Hd. apply Hmin; auto.
    apply filter_In. auto.
Qed.

Lemma ammoNonneg_initial : ammoNonneg INITIAL_AMMO.
Proof. intros s. destruct s; simpl; lia. Qed.

Lemma fireMissile_nonneg targetX targetY a :
  ammoNonneg (ammo a) -> ammoNonneg (ammo (fireMissile targetX targetY a)).
Proof.
  intros Hn.
  destruct (fireMissile_ammo targetX targetY a)
    as [->|(b & side & (_&_&Ham) & Hside & _ & _ & _ & _ & ->)]; [exact Hn|].
  unfold hasAmmo in Ham. rewrite Hside in Ham. apply Z.ltb_lt in Ham.
  intros s. specialize (Hn s).
  destruct side, s; simpl in *; lia.
Qed.

Lemma effect_nonneg width height clock a :
  ammoNonneg (ammo a) -> ammoNonneg (ammo (effect width height clock a)).
Proof.
  intros Hn. unfold effect. destruct (isPlaying (gameState a)); [|exact Hn].
  simpl. unfold initGame. destruct (canvas a); [|exact Hn].
  simpl. apply ammoNonneg_initial.
Qed.

Lemma commit_nonneg w a b :
  ammoNonneg (ammo b) -> ammoNonneg (ammo (commit w a b)).
Proof.
  intros Hn. unfold commit. destruct (depsChanged a b); [|exact Hn].
  destruct (depsChanged b _); repeat apply effect_nonneg; exact Hn.
Qed.

Lemma handle_nonneg random ev a b :
  handle random ev a = Some b -> ammoNonneg (ammo a) -> ammoNonneg (ammo b).
Proof.
  intros Hh Hn. destruct ev; simpl in Hh.
  - destruct (isPlaying (gameState a)); [|discriminate].
    injection Hh as <-. now rewrite update_ammo.
  - injection Hh as <-. destruct (negb _ || _); [exact Hn|].
    now apply fireMissile_nonneg.
  - destruct (gameState a); try discriminate. injection Hh as <-. exact Hn.
  - destruct (gameState a); try discriminate; injection Hh as <-; exact Hn.
  - destruct (isPlaying (gameState a)); [|discriminate].
    injection Hh as <-. exact Hn.
  - destruct (showHelp a); [|discriminate]. injection Hh as <-. exact Hn.
  - destruct (gameState a); try discriminate; injection Hh as <-; exact Hn.
  - injection Hh as <-. exact Hn.
Qed.

Lemma reachable_nonneg random a :
  Reachable random a -> ammoNonneg (ammo a).
Proof.
  induction 1 as [|w ev a b Hr IH Hd].
  - apply ammoNonneg_initial.
  - unfold dispatch in Hd.
    destruct (handle random ev a) as [b'|] eqn:Hh; [|discriminate].
    injection Hd as <-. apply commit_nonneg.
    eapply handle_nonneg; eauto.
Qed.

Lemma fireMissile_fires targetX targetY a :
  gameState a = playing -> showHelp a = false -> (exists b, eligible a b) ->
  exists b side,
    eligible a b /\ b_batterySide b = Some side
    /\ (forall b', eligible a b' -> aimDist targetX b <= aimDist targetX b')
    /\ fireMissile targetX targetY a = launch targetX targetY a b
    /\ ammo (fireMissile targetX targetY a)
       = ammoSet (ammo a) side (ammoAt (ammo a) side - 1).
Proof.
  intros Hp Hh [b0 (Hin0 & Hact0 & Ham0)].
  destruct (fireMissile_ammo targetX targetY a)
    as [Hsame|(b & side & Hel & Hside & _ & _ & Hmin & Hfire & Ham)].
  - exfalso.
    rewrite (fireMissile_guarded targetX targetY a Hp Hh) in Hsame.
    pose proof (pickBattery_inv (ammo a) targetX
                  (filter isActiveBattery (buildingsRef a))) as Hinv.
    destruct (pickBattery _ _ _) as [[b|] [d|]]; simpl in *; try contradiction.
    + destruct Hinv as (_ & Ham & _). unfold hasAmmo in Ham.
      destruct (b_batterySide b) as [side|] eqn:Hside; [|discriminate].
      apply Z.ltb_lt in Ham. unfold launch in Hsame.
      try rewrite Hside in Hsame. simpl in Hsame.
      assert (ammoAt (ammoSet (ammo a) side (ammoAt (ammo a) side - 1)) side
              = ammoAt (ammo a) side) as Heq by now rewrite Hsame.
      rewrite ammoAt_ammoSet_same in Heq. lia.
    + assert (hasAmmo (ammo a) b0 = false) as Hf
          by (apply Hinv; apply filter_In; auto).
      congruence.
  - exists b, side. repeat split; try apply Hel; auto.
Qed.

(** C4. [fireMissile] does nothing outside [playing] (or while the help is
    open) and nothing when no battery is eligible, an eligible battery being
    one that is not destroyed and whose side has ammo left.  Otherwise it
    picks an eligible battery whose centre is horizontally nearest to the
    aimed abscissa, takes exactly 1 from the ammo of that battery's side and
    from no other, and appends one player missile that starts at the top
    middle of that battery and aims at the given point.  No ammo pool is
    ever negative: firing keeps the pools non-negative, and so they are in
    every state the page can reach. *)
Theorem fire_behaviour (random : nat -> R) (targetX targetY : R) (a : App) :
  (gameState a <> playing \/ showHelp a = true ->
   fireMissile targetX targetY a = a)
  /\ ((forall b, ~ eligible a b) -> fireMissile targetX targetY a = a)
  /\ (gameState a = playing -> showHelp a = false ->
      (exists b, eligible a b) ->
      exists b side,
        eligible a b /\ b_batterySide b = Some side
        /\ (forall b', eligible a b' -> aimDist targetX b <= aimDist targetX b')
        /\ ammoAt (ammo (fireMissile targetX targetY a)) side
           = (ammoAt (ammo a) side - 1)%Z
        /\ (forall s, s <> side ->
            ammoAt (ammo (fireMissile targetX targetY a)) s = ammoAt (ammo a) s)
        /\ missilesRef (fireMissile targetX targetY a)
           = missilesRef a ++
               [mkMissile (nextIdRef a) (muzzleOf b) (muzzleOf b)
                          (mkPoint targetX targetY) 4 "#44ccff" false])
  /\ (ammoNonneg (ammo a) -> ammoNonneg (ammo (fireMissile targetX targetY a)))
  /\ (Reachable random a -> ammoNonneg (ammo a)).
Proof.
  split; [|split; [|split; [|split]]].
  - intros [Hp|Hh]; unfold fireMissile.
    + destruct (gameState a); try reflexivity. congruence.
    + now rewrite Hh, orb_true_r.
  - intros Hnone.
    destruct (gameState a) eqn:Hp;
      try (unfold fireMissile; rewrite Hp; reflexivity).
    destruct (showHelp a) eqn:Hh;
      [unfold fireMissile; rewrite Hp, Hh; reflexivity|].
    rewrite (fireMissile_guarded targetX targetY a Hp Hh).
    pose proof (pickBattery_inv (ammo a) targetX
                  (filter isActiveBattery (buildingsRef a))) as Hinv.
    destruct (pickBattery _ _ _) as [[b|] [d|]]; simpl in *;
      try contradiction; [|reflexivity].
    destruct Hinv as (Hin & Ham & _). apply filter_In in Hin as [Hin Hact].
    exfalso. apply (Hnone b). repeat split; assumption.
  - intros Hp Hh Hex.
    destruct (fireMissile_fires targetX targetY a Hp Hh Hex)
      as (b & side & Hel & Hside & Hmin & Hfire & Ham).
    exists b, side. repeat split; try apply Hel; auto.
    + rewrite Ham. apply ammoAt_ammoSet_same.
    + intros s Hs. rewrite Ham. now apply ammoAt_ammoSet_other.
    + rewrite Hfire. unfold launch. rewrite Hside. reflexivity.
  - apply fireMissile_nonneg.
  - apply reachable_nonneg.
Qed.

Definition inPlay : App :=
  mkApp playing 0 INITIAL_AMMO zh medium false [] [] (layout 800 600) []
        0 0 (Some (mkCanvas 800 600)) 0.

Lemma fire_behaviour_witness :
  gameState inPlay = playing /\ showHelp inPlay = false
  /\ (exists b, eligible inPlay b)
  /\ ammoNonneg (ammo inPlay)
  /\ (exists b side,
        eligible inPlay b /\ b_batterySide b = Some side
        /\ (forall b', eligible inPlay b' -> aimDist 100 b <= aimDist 100 b')
        /\ ammoAt (ammo (fireMissile 100 200 inPlay)) side
           = (ammoAt (ammo inPlay) side - 1)%Z
        /\ (forall s, s <> side ->
            ammoAt (ammo (fireMissile 100 200 inPlay)) s = ammoAt (ammo inPlay) s)
        /\ missilesRef (fireMissile 100 200 inPlay)
           = missilesRef inPlay ++
               [mkMissile (nextIdRef inPlay) (muzzleOf b) (muzzleOf b)
                          (mkPoint 100 200) 4 "#44ccff" false])
  /\ ammoNonneg (ammo (fireMissile 100 200 inPlay)).
Proof.
  assert (H1 : gameState inPlay = playing) by reflexivity.
  assert (H2 : showHelp inPlay = false) by reflexivity.
  assert (H3 : exists b, eligible inPlay b).
  { exists (mkBuilding 50 (600 - 40 - 30) 60 30 false battery 0 (Some left)).
    split; [simpl; left; reflexivity|]. split; reflexivity. }
  assert (H4 : ammoNonneg (ammo inPlay)) by (intros s; destruct s; simpl; lia).
  pose proof (fire_behaviour (fun _ => 0) 100 200 inPlay) as (_ & _ & Hf & Hn & _).
  split; [exact H1|]. split; [exact H2|]. split; [exact H3|]. split; [exact H4|].
  split; [exact (Hf H1 H2 H3)|exact (Hn H4)].
Defined.

(** ** Closed forms of the operations *)

Section ClosedForms.

Variable random : nat -> R.

(** The [n] particles that the loop of [createExplosion] appends when the
    oracle has been called [d] times before. *)
Fixpoint burst (n : nat) (x y : R) (d : nat) : list Particle :=
  match n with
  | O => []
  | S n' =>
      mkParticle x y ((random d - 5 / 10) * 4) ((random (S d) - 5 / 10) * 4) 1
                 (Hsl (random (S (S d)) * 60 + 10) 100 50)
      :: burst n' x y (3 + d)
  end.

Lemma burst_length n x y d : length (burst n x y d) = n.
Proof. revert d. induction n; intros d; simpl; auto. Qed.

Lemma burst_at n x y d :
  Forall (fun p => p_x p = x /\ p_y p = y /\ p_life p = 1) (burst n x y d).
Proof.
  revert d. induction n; intros d; simpl; constructor; auto.
Qed.

Lemma pushParticles_eq n x y a :
  pushParticles random n x y a =
  setDraws (draws a + 3 * n)
    (setParticles (particlesRef a ++ burst n x y (draws a)) a).
Proof.
  revert a. induction n as [|n IH]; intros a.
  - simpl. rewrite app_nil_r. destruct a; unfold setDraws, setParticles; simpl.
    f_equal. lia.
  - cbn [pushParticles]. rewrite IH.
    destruct a; unfold setDraws, setParticles, pushParticle, mathRandom; simpl.
    f_equal.
    + now rewrite <- app_assoc.
    + lia.
Qed.

Lemma createExplosion_eq x y a :
  createExplosion random x y a =
  mkApp (gameState a) (score a) (ammo a) (language a) (difficulty a) (showHelp a)
        (missilesRef a)
        (explosionsRef a ++ [mkExplosion x y 0 40 60 (nextIdRef a)])
        (buildingsRef a)
        (particlesRef a ++ burst 15 x y (draws a))
        (lastEnemySpawnRef a) (S (nextIdRef a)) (canvas a) (draws a + 45).
Proof.
  unfold createExplosion. rewrite pushParticles_eq.
  unfold setDraws, setParticles, setNextId, setExplosions; simpl.
  reflexivity.
Qed.

(** What the missile callback does to the component for a missile that has
    arrived. *)
Definition arrive (m : Missile) (a : App) : App :=
  let a' := createExplosion random (px (m_target m)) (py (m_target m)) a in
  if m_isEnemy m
  then setBuildings (map (impact (m_target m)) (buildingsRef a')) a'
  else a'.

Lemma missileCallback_eq m a :
  missileCallback random m a =
  if hasArrived m then (None, arrive m a) else (Some (advance m), a).
Proof.
  unfold missileCallback, arrive. destruct (hasArrived m); [|reflexivity].
  destruct (m_isEnemy m); reflexivity.
Qed.

Lemma filterRef_missiles ms a :
  filterRef (missileCallback random) ms a =
  (map advance (filter (fun m => negb (hasArrived m)) ms),
   fold_left (fun a m => arrive m a) (filter hasArrived ms) a).
Proof.
  revert a. induction ms as [|m ms IH]; intros a; [reflexivity|].
  cbn [filterRef]. rewrite missileCallback_eq. simpl.
  destruct (hasArrived m); simpl; rewrite IH; reflexivity.
Qed.

End ClosedForms.

(** ** The arrival phase in closed form *)

Section Arrival.

Variable random : nat -> R.

Definition blastAt (p : Point) (id : nat) : Explosion :=
  mkExplosion (px p) (py p) 0 40 60 id.

(** The blasts of the missiles [ms] that arrive, numbered from [id] on. *)
Fixpoint arrivalBlasts (ms : list Missile) (id : nat) : list Explosion :=
  match ms with
  | [] => []
  | m :: ms' => blastAt (m_target m) id :: arrivalBlasts ms' (S id)
  end.

Fixpoint arrivalBursts (ms : list Missile) (d : nat) : list Particle :=
  match ms with
  | [] => []
  | m :: ms' =>
      burst random 15 (px (m_target m)) (py (m_target m)) d
      ++ arrivalBursts ms' (d + 45)
  end.

(** A building after the impacts of the enemy missiles among [ms]. *)
Definition impacts (ms : list Missile) (b : Building) : Building :=
  fold_left (fun b m => impact (m_target m) b) (filter m_isEnemy ms) b.

(** The impact test of the callback: the building's centre is closer than
    30 to the missile's target. *)
Definition hits (m : Missile) (b : Building) : bool :=
  Rltb (sqrt ((b_x b + b_width b / 2 - px (m_target m)) ^ 2
              + (b_y b + b_height b / 2 - py (m_target m)) ^ 2)) 30.

Lemma impacts_cons m ms b :
  impacts (m :: ms) b =
  impacts ms (if m_isEnemy m then impact (m_target m) b else b).
Proof. unfold impacts. simpl. destruct (m_isEnemy m); reflexivity. Qed.

Lemma impact_destroyed p b : b_isDestroyed b = true -> impact p b = b.
Proof. intros H. unfold impact. now rewrite H. Qed.

Lemma impacts_destroyed ms b : b_isDestroyed b = true -> impacts ms b = b.
Proof.
  revert b. induction ms as [|m ms IH]; intros b H; [reflexivity|].
  rewrite impacts_cons. destruct (m_isEnemy m); [|now apply IH].
  rewrite impact_destroyed by assumption. now apply IH.
Qed.

Lemma impact_live m b :
  b_isDestroyed b = false ->
  impact (m_target m) b = if hits m b then destroy b else b.
Proof. intros H. unfold impact, hits. now rewrite H. Qed.

Lemma impacts_spec ms b :
  impacts ms b =
  if negb (b_isDestroyed b) && existsb (fun m => m_isEnemy m && hits m b) ms
  then destroy b else b.
Proof.
  revert b. induction ms as [|m ms IH]; intros b.
  - simpl. now rewrite andb_false_r.
  - rewrite impacts_cons. simpl existsb.
    destruct (b_isDestroyed b) eqn:Hd.
    + simpl. destruct (m_isEnemy m);
        [rewrite impact_destroyed by assumption|];
        now apply impacts_destroyed.
    + destruct (m_isEnemy m); cbn [negb andb orb].
      * rewrite impact_live by assumption.
        destruct (hits m b); cbn [negb andb orb].
        -- now apply impacts_destroyed.
        -- rewrite IH, Hd. reflexivity.
      * rewrite IH, Hd. reflexivity.
Qed.

Lemma arrivals_eq ms : forall a,
  fold_left (fun a m => arrive random m a) ms a =
  mkApp (gameState a) (score a) (ammo a) (language a) (difficulty a) (showHelp a)
        (missilesRef a)
        (explosionsRef a ++ arrivalBlasts ms (nextIdRef a))
        (map (impacts ms) (buildingsRef a))
        (particlesRef a ++ arrivalBursts ms (draws a))
        (lastEnemySpawnRef a) (nextIdRef a + length ms) (canvas a)
        (draws a + 45 * length ms).
Proof.
  induction ms as [|m ms IH]; intros a.
  - simpl. rewrite !app_nil_r, map_id, !Nat.add_0_r. now destruct a.
  - cbn [fold_left]. rewrite IH. unfold arrive. rewrite createExplosion_eq.
    destruct (m_isEnemy m) eqn:He; simpl.
    + f_equal.
      * now rewrite <- app_assoc.
      * rewrite map_map. apply map_ext. intros b.
        rewrite impacts_cons, He. reflexivity.
      * now rewrite <- app_assoc.
      * lia.
      * lia.
    + f_equal.
      * now rewrite <- app_assoc.
      * apply map_ext. intros b. rewrite impacts_cons, He. reflexivity.
      * now rewrite <- app_assoc.
      * lia.
      * lia.
Qed.

Lemma updateMissiles_eq a :
  let arrived := filter hasArrived (missilesRef a) in
  updateMissiles random a =
  mkApp (gameState a) (score a) (ammo a) (language a) (difficulty a) (showHelp a)
        (map advance (filter (fun m => negb (hasArrived m)) (missilesRef a)))
        (explosionsRef a ++ arrivalBlasts arrived (nextIdRef a))
        (map (impacts arrived) (buildingsRef a))
        (particlesRef a ++ arrivalBursts arrived (draws a))
        (lastEnemySpawnRef a) (nextIdRef a + length arrived) (canvas a)
        (draws a + 45 * length arrived).
Proof.
  intros arrived. unfold updateMissiles. rewrite filterRef_missiles.
  fold arrived. rewrite arrivals_eq. reflexivity.
Qed.



End Arrival.

(** ** C3: arrival and motion *)






(** ** C6: spawning *)

Lemma floor_index (r : R) (n : nat) :
  0 <= r < 1 -> (0 < n)%nat ->
  let i := Z.to_nat (floor (r * INR n)) in
  (i < n)%nat /\ INR i <= r * INR n < INR i + 1.
Proof.
  intros [Hr0 Hr1] Hn i.
  assert (Hn' : 0 < INR n) by (apply lt_0_INR; exact Hn).
  set (x := r * INR n) in *.
  assert (Hx0 : 0 <= x) by (unfold x; nra).
  assert (Hx1 : x < INR n) by (unfold x; nra).
  destruct (base_Int_part x) as [Hlo Hhi].
  assert (Hz0 : (0 <= floor x)%Z).
  { unfold floor. apply Z.lt_pred_le. apply lt_IZR.
    change (Z.pred 0) with (-1)%Z. lra. }
  assert (Hz1 : (floor x < Z.of_nat n)%Z).
  { unfold floor. apply lt_IZR. rewrite <- INR_IZR_INZ. lra. }
  assert (Hi : INR i = IZR (floor x)).
  { unfold i. rewrite INR_IZR_INZ, Z2Nat.id by exact Hz0. reflexivity. }
  split.
  - unfold i. lia.
  - rewrite Hi. unfold floor. lra.
Qed.

Lemma spawnEnemy_eq random a cv b0 others :
  canvas a = Some cv ->
  filter isLive (buildingsRef a) = b0 :: others ->
  let targets := b0 :: others in
  let target :=
    nth (Z.to_nat (floor (random (draws a) * INR (length targets)))) targets b0 in
  spawnEnemy random a =
  mkApp (gameState a) (score a) (ammo a) (language a) (difficulty a) (showHelp a)
        (missilesRef a ++
           [mkMissile (nextIdRef a)
                      (mkPoint (random (S (draws a)) * c_width cv) 0)
                      (mkPoint (random (S (draws a)) * c_width cv) 0)
                      (centerOf target)
                      ((ENEMY_SPEED_MIN
                        + random (S (S (draws a))) * (ENEMY_SPEED_MAX - ENEMY_SPEED_MIN))
                       * speedMult (getDifficultyModifiers (difficulty a)))
                      "#ff4444" true])
        (explosionsRef a) (buildingsRef a) (particlesRef a)
        (lastEnemySpawnRef a) (S (nextIdRef a)) (canvas a) (S (S (S (draws a)))).
Proof.
  intros Hc Hf targets target. unfold spawnEnemy. rewrite Hf, Hc.
  cbv beta iota. rewrite <- Hc. reflexivity.
Qed.

(** The two multipliers, as the claim lists them. *)
Definition spawnMultiplier (d : Difficulty) : R :=
  match d with easy => 15 / 10 | medium => 1 | hard => 7 / 10 end.

Definition speedMultiplier (d : Difficulty) : R :=
  match d with easy => 7 / 10 | medium => 1 | hard => 13 / 10 end.

(** C6. The spawn step of a frame compares the time elapsed since the spawn
    reference with [max 500 (2000 - score/100*200)] times the spawn
    multiplier of the difficulty (1.5, 1, 0.7).  When the elapsed time is
    larger, the reference becomes the frame's time, and: with no building
    left that is not destroyed, no missile is added; otherwise exactly one
    enemy missile is appended, built from three successive draws [r1], [r2],
    [r3] of the oracle: its target is the centre of the [i]-th building that
    is not destroyed, where [i] is the integer with [i <= r1 * n < i + 1]
    (one of [n] equal slices of the unit interval per building), it starts
    at [(r2 * width, 0)], and its speed is [(0.5 + r3 * (1.5 - 0.5))] times
    the speed multiplier (0.7, 1, 1.3), hence between 0.5 and 1.5 times it.
    When the elapsed time is not larger, the step changes nothing. *)
Theorem spawn_step (random : nat -> R) (time : R) (a : App) (cv : Canvas) :
  (forall n, 0 <= random n < 1) ->
  canvas a = Some cv ->
  let targets := filter isLive (buildingsRef a) in
  let after := spawnPhase random time (score a) a in
  let interval :=
    Rmax 500 (2000 - IZR (score a) / 100 * 200) * spawnMultiplier (difficulty a) in
  let sm := speedMultiplier (difficulty a) in
  let r1 := random (draws a) in
  let r2 := random (S (draws a)) in
  let r3 := random (S (S (draws a))) in
  (time - lastEnemySpawnRef a > interval ->
   lastEnemySpawnRef after = time
   /\ (targets = [] -> missilesRef after = missilesRef a)
   /\ (targets <> [] ->
       exists i b,
         nth_error targets i = Some b
         /\ INR i <= r1 * INR (length targets) < INR i + 1
         /\ missilesRef after
            = missilesRef a ++
                [mkMissile (nextIdRef a) (mkPoint (r2 * c_width cv) 0)
                           (mkPoint (r2 * c_width cv) 0) (centerOf b)
                           ((5 / 10 + r3 * (15 / 10 - 5 / 10)) * sm)
                           "#ff4444" true]
         /\ 5 / 10 * sm <= (5 / 10 + r3 * (15 / 10 - 5 / 10)) * sm < 15 / 10 * sm
         /\ (0 < c_width cv -> 0 <= r2 * c_width cv < c_width cv)))
  /\ (~ time - lastEnemySpawnRef a > interval -> after = a).
Proof.
  intros Hr Hc targets after interval sm r1 r2 r3.
  assert (Hint : spawnRate (score a) (difficulty a) = interval).
  { unfold spawnRate, interval, spawnMultiplier. destruct (difficulty a); reflexivity. }
  assert (Hsm : speedMult (getDifficultyModifiers (difficulty a)) = sm).
  { unfold sm, speedMultiplier. destruct (difficulty a); reflexivity. }
  assert (Hsm0 : 0 < sm).
  { unfold sm, speedMultiplier. destruct (difficulty a); lra. }
  unfold after, spawnPhase, spawnDue, Rgtb. rewrite Hint. split.
  - intros Hdue. rewrite Rltb_intro_true by lra.
    split; [reflexivity|]. split.
    + intros Hnone. unfold spawnEnemy. rewrite Hc. fold targets. rewrite Hnone.
      reflexivity.
    + intros Hsome. destruct targets as [|b0 others] eqn:Ht; [congruence|].
      rewrite (spawnEnemy_eq random a cv b0 others Hc Ht).
      cbn [missilesRef setLastEnemySpawn]. fold r1 r2 r3.
      destruct (floor_index r1 (length (b0 :: others)) (Hr _)) as [Hi Hslice];
        [simpl; lia|].
      set (i := Z.to_nat (floor (r1 * INR (length (b0 :: others))))) in *.
      exists i, (nth i (b0 :: others) b0).
      split; [apply nth_error_nth'; exact Hi|].
      split; [exact Hslice|].
      split; [rewrite Hsm; reflexivity|].
      pose proof (Hr (S (S (draws a)))) as Hr3. fold r3 in Hr3.
      pose proof (Hr (S (draws a))) as Hr2. fold r2 in Hr2.
      split; [nra|]. intros Hw. nra.
  - intros Hnot. rewrite Rltb_intro_false by lra. reflexivity.
Qed.

Lemma spawn_step_witness :
  (forall n : nat, 0 <= (fun _ : nat => 0) n < 1)
  /\ canvas inPlay = Some (mkCanvas 800 600)
  /\ 3000 - lastEnemySpawnRef inPlay
     > Rmax 500 (2000 - IZR (score inPlay) / 100 * 200)
       * spawnMultiplier (difficulty inPlay)
  /\ lastEnemySpawnRef (spawnPhase (fun _ => 0) 3000 (score inPlay) inPlay) = 3000.
Proof.
  assert (H1 : forall n : nat, 0 <= (fun _ : nat => 0) n < 1) by (intros; lra).
  assert (H2 : canvas inPlay = Some (mkCanvas 800 600)) by reflexivity.
  assert (H3 : 3000 - lastEnemySpawnRef inPlay
               > Rmax 500 (2000 - IZR (score inPlay) / 100 * 200)
                 * spawnMultiplier (difficulty inPlay)).
  { simpl. unfold Rmax. destruct (Rle_dec _ _); lra. }
  split; [exact H1|]. split; [exact H2|]. split; [exact H3|].
  exact (proj1 (proj1 (spawn_step (fun _ => 0) 3000 inPlay (mkCanvas 800 600)
                         H1 H2) H3)).
Defined.

(** ** The blast phase in closed form *)

Section Blasts.

Variable random : nat -> R.

(** The catch test of the callback. *)
Definition caught (e : Explosion) (m : Missile) : bool :=
  m_isEnemy m && Rltb (distToBlast e m) (e_radius e).

(** What the catch callback does to the component for a caught missile. *)
Definition capture (m : Missile) (a : App) : App :=
  createExplosion random (px (m_current m)) (py (m_current m))
                  (setScore (score a + 20) a).

Lemma catchCallback_eq e m a :
  catchCallback random e m a =
  if caught e m then (None, capture m a) else (Some m, a).
Proof.
  unfold catchCallback, caught, capture. destruct (m_isEnemy m); [|reflexivity].
  simpl. destruct (Rltb _ _); reflexivity.
Qed.

Lemma filterRef_catch e ms a :
  filterRef (catchCallback random e) ms a =
  (filter (fun m => negb (caught e m)) ms,
   fold_left (fun a m => capture m a) (filter (caught e) ms) a).
Proof.
  revert a. induction ms as [|m ms IH]; intros a; [reflexivity|].
  cbn [filterRef]. rewrite catchCallback_eq. simpl.
  destruct (caught e m); simpl; rewrite IH; reflexivity.
Qed.

(** The secondary blasts of the caught missiles [ms], numbered from [id]. *)
Fixpoint captureBlasts (ms : list Missile) (id : nat) : list Explosion :=
  match ms with
  | [] => []
  | m :: ms' => blastAt (m_current m) id :: captureBlasts ms' (S id)
  end.

Fixpoint captureBursts (ms : list Missile) (d : nat) : list Particle :=
  match ms with
  | [] => []
  | m :: ms' =>
      burst random 15 (px (m_current m)) (py (m_current m)) d
      ++ captureBursts ms' (d + 45)
  end.

Lemma captureBursts_length ms d :
  length (captureBursts ms d) = (15 * length ms)%nat.
Proof.
  revert d. induction ms as [|m ms IH]; intros d; [reflexivity|].
  cbn [captureBursts length]. rewrite length_app, burst_length, IH. lia.
Qed.

Lemma captures_eq ms : forall a,
  fold_left (fun a m => capture m a) ms a =
  mkApp (gameState a) (score a + 20 * Z.of_nat (length ms)) (ammo a)
        (language a) (difficulty a) (showHelp a)
        (missilesRef a)
        (explosionsRef a ++ captureBlasts ms (nextIdRef a))
        (buildingsRef a)
        (particlesRef a ++ captureBursts ms (draws a))
        (lastEnemySpawnRef a) (nextIdRef a + length ms) (canvas a)
        (draws a + 45 * length ms).
Proof.
  induction ms as [|m ms IH]; intros a.
  - simpl. rewrite !app_nil_r, Z.add_0_r, !Nat.add_0_r. now destruct a.
  - cbn [fold_left]. rewrite IH. unfold capture. rewrite createExplosion_eq.
    cbn -[Z.of_nat Z.mul Z.add Nat.mul]. f_equal.
    + cbn [length]. lia.
    + now rewrite <- app_assoc.
    + now rewrite <- app_assoc.
    + cbn [length]. lia.
    + cbn [length]. lia.
Qed.

(** One round of the blast loop, for the blast [e] as stored. *)
Definition blastRound (e : Explosion) (a : App) : App :=
  let hit := filter (caught (grow e)) (missilesRef a) in
  mkApp (gameState a) (score a + 20 * Z.of_nat (length hit)) (ammo a)
        (language a) (difficulty a) (showHelp a)
        (filter (fun m => negb (caught (grow e) m)) (missilesRef a))
        (explosionsRef a ++ captureBlasts hit (nextIdRef a))
        (buildingsRef a)
        (particlesRef a ++ captureBursts hit (draws a))
        (lastEnemySpawnRef a) (nextIdRef a + length hit) (canvas a)
        (draws a + 45 * length hit).

Definition stillBurning (e : Explosion) : bool := (0 <? e_timer e)%Z.

Lemma explosionCallback_eq e a :
  explosionCallback random e a =
  (if stillBurning (grow e) then Some (grow e) else None, blastRound e a).
Proof.
  unfold explosionCallback. rewrite filterRef_catch, captures_eq.
  reflexivity.
Qed.

Lemma filterRef_explosions es a :
  filterRef (explosionCallback random) es a =
  (filter stillBurning (map grow es),
   fold_left (fun a e => blastRound e a) es a).
Proof.
  revert a. induction es as [|e es IH]; intros a; [reflexivity|].
  cbn [filterRef]. rewrite explosionCallback_eq, IH. simpl.
  destruct (stillBurning (grow e)); reflexivity.
Qed.

(** The blasts after the phase are the grown blasts of before that still
    burn: what [createExplosion] appended during the phase is not among
    them. *)
Lemma updateExplosions_blasts a :
  explosionsRef (updateExplosions random a)
  = filter stillBurning (map grow (explosionsRef a)).
Proof.
  unfold updateExplosions. rewrite filterRef_explosions. reflexivity.
Qed.

Lemma updateExplosions_rounds a :
  updateExplosions random a =
  setExplosions (filter stillBurning (map grow (explosionsRef a)))
    (fold_left (fun a e => blastRound e a) (explosionsRef a) a).
Proof.
  unfold updateExplosions. rewrite filterRef_explosions. reflexivity.
Qed.

Lemma filter_split_length {X : Type} (f : X -> bool) (l : list X) :
  (length (filter f l) + length (filter (fun x => negb (f x)) l) = length l)%nat.
Proof.
  induction l as [|x l IH]; [reflexivity|]. simpl.
  destruct (f x); simpl; lia.
Qed.

(** Through the rounds of the blast loop, the missiles are only filtered,
    every missile dropped is paid with 20 points, and the buildings stay. *)
Lemma blastRounds_spec es : forall a,
  let b := fold_left (fun a e => blastRound e a) es a in
  missilesRef b
  = filter (fun m => negb (existsb (fun e => caught (grow e) m) es)) (missilesRef a)
  /\ (score b + 20 * Z.of_nat (length (missilesRef b))
      = score a + 20 * Z.of_nat (length (missilesRef a)))%Z
  /\ buildingsRef b = buildingsRef a
  /\ sameControl a b.
Proof.
  induction es as [|e es IH]; intros a.
  - simpl. split; [|split; [reflexivity|split; [reflexivity|apply sameControl_refl]]].
    induction (missilesRef a) as [|m ms IHm]; simpl; congruence.
  - cbn [fold_left]. destruct (IH (blastRound e a)) as (Hm & Hs & Hb & Hc).
    cbv zeta. split; [|split; [|split]].
    + rewrite Hm. cbn [blastRound missilesRef].
      clear. induction (missilesRef a) as [|m ms IHm]; [reflexivity|].
      simpl. destruct (caught (grow e) m); simpl; [exact IHm|].
      destruct (existsb _ es); simpl; rewrite IHm; reflexivity.
    + rewrite Hs. cbn [blastRound score missilesRef].
      pose proof (filter_split_length (caught (grow e)) (missilesRef a)). lia.
    + rewrite Hb. reflexivity.
    + eapply sameControl_trans; [|exact Hc].
      unfold sameControl; simpl; tauto.
Qed.

End Blasts.

(** ** C2 and C7: a missile caught by a blast *)

(** A state of a running game on an 800 x 600 window: a blast (identifier
    7) sits at the centre of the centre battery, which is destroyed, with
    its timer at 31, and an enemy missile aimed at the same point is 20 away
    from it. *)
Definition firstBlast : Explosion :=
  mkExplosion 400 540 (sin ((1 - 31 / 60) * PI) * 40) 40 31 7.

Definition secondEnemy : Missile :=
  mkMissile 8 (mkPoint 400 0) (mkPoint 400 520) (mkPoint 400 540) 1 "#ff4444" true.

Definition scene : App :=
  mkApp playing 0 INITIAL_AMMO zh medium false
        [secondEnemy] [firstBlast]
        (map (fun b => if Nat.eqb (b_id b) 1 then destroy b else b) (layout 800 600))
        [] 9000 9 (Some (mkCanvas 800 600)) 0.

Lemma secondEnemy_dist : distToTarget secondEnemy = 20.
Proof.
  unfold distToTarget. simpl.
  replace ((400 - 400) * (400 - 400) + (540 - 520) * (540 - 520)) with (20 * 20)
    by ring.
  apply sqrt_square. lra.
Qed.

Lemma secondEnemy_flying : hasArrived secondEnemy = false.
Proof.
  unfold hasArrived. rewrite secondEnemy_dist. simpl.
  apply Rltb_intro_false. lra.
Qed.

Lemma secondEnemy_advance :
  advance secondEnemy =
  mkMissile 8 (mkPoint 400 0) (mkPoint 400 521) (mkPoint 400 540) 1 "#ff4444" true.
Proof.
  unfold advance. fold (distToTarget secondEnemy). rewrite secondEnemy_dist.
  simpl. f_equal. f_equal; field.
Qed.

Lemma firstBlast_grow :
  grow firstBlast = mkExplosion 400 540 40 40 30 7.
Proof.
  unfold grow. simpl. f_equal. unfold EXPLOSION_DURATION.
  replace ((1 - 30 / 60) * PI) with (PI / 2) by field.
  rewrite sin_PI2. ring.
Qed.

Lemma secondEnemy_caught :
  caught (grow firstBlast) (advance secondEnemy) = true.
Proof.
  rewrite firstBlast_grow, secondEnemy_advance. unfold caught, distToBlast.
  simpl. apply Rltb_intro_true.
  replace ((400 - 400) * ((400 - 400) * 1) + (521 - 540) * ((521 - 540) * 1))
    with (19 * 19) by ring.
  rewrite sqrt_square; lra.
Qed.

Lemma scene_no_spawn random :
  spawnPhase random 9500 (score scene) scene = scene.
Proof.
  unfold spawnPhase, spawnDue, Rgtb, spawnRate. simpl.
  rewrite Rltb_intro_false; [reflexivity|].
  unfold Rmax. destruct (Rle_dec _ _); lra.
Qed.

Lemma scene_canvas : canvas scene <> None.
Proof. simpl. discriminate. Qed.

Lemma impacts_nil bs : map (impacts []) bs = bs.
Proof. induction bs as [|b bs IH]; [reflexivity|]. cbn [map]. rewrite IH. reflexivity. Qed.

Lemma scene_tick random :
  exists sparks,
  update random 9500 scene =
  mkApp playing 20 INITIAL_AMMO zh medium false
        [] [mkExplosion 400 540 40 40 30 7]
        (buildingsRef scene) sparks
        9000 10 (Some (mkCanvas 800 600)) 45.
Proof.
  eexists.
  rewrite (update_phases random 9500 scene scene_canvas eq_refl).
  rewrite scene_no_spawn.
  rewrite updateMissiles_eq. cbv zeta.
  change (missilesRef scene) with [secondEnemy].
  cbn [filter]. rewrite secondEnemy_flying.
  cbn [negb map arrivalBlasts arrivalBursts length app].
  rewrite impacts_nil, !app_nil_r.
  rewrite updateExplosions_rounds.
  cbn [explosionsRef scene fold_left map].
  unfold blastRound. cbn [missilesRef filter].
  rewrite secondEnemy_caught. cbn [negb length captureBlasts captureBursts].
  rewrite firstBlast_grow. cbn [filter stillBurning e_timer Z.ltb Z.compare].
  rewrite updateParticles_eq.
  reflexivity.
Qed.

(** C2 (what the code does where the claim fails).  In the frame at time
    9500 of [scene] the second enemy missile moves to (400, 521), where it
    lies 19 away from the centre of the blast, whose radius is then 40: the
    missile is removed, the score rises by exactly 20, and [createExplosion]
    runs for it (it consumes the identifier 9).  The blasts after the frame
    are nevertheless the old blast alone: there is no blast at the position
    of the caught missile. *)
Theorem caught_missile_leaves_no_blast (random : nat -> R) :
  let after := update random 9500 scene in
  missilesRef scene = [secondEnemy]
  /\ explosionsRef scene = [firstBlast]
  /\ missilesRef after = []
  /\ score after = (score scene + 20)%Z
  /\ nextIdRef after = S (nextIdRef scene)
  /\ explosionsRef after = [mkExplosion 400 540 40 40 30 7].
Proof.
  cbv zeta. destruct (scene_tick random) as [sparks ->].
  repeat split.
Qed.

Lemma scene_next_tick random sparks :
  exists sparks',
  update random 9516
    (mkApp playing 20 INITIAL_AMMO zh medium false
           [] [mkExplosion 400 540 40 40 30 7]
           (buildingsRef scene) sparks
           9000 10 (Some (mkCanvas 800 600)) 45) =
  mkApp playing 20 INITIAL_AMMO zh medium false
        [] [mkExplosion 400 540 (sin ((1 - 29 / 60) * PI) * 40) 40 29 7]
        (buildingsRef scene) sparks'
        9000 10 (Some (mkCanvas 800 600)) 45.
Proof.
  eexists.
  rewrite update_phases by (simpl; congruence).
  assert (Hs : forall a, a = mkApp playing 20 INITIAL_AMMO zh medium false
           [] [mkExplosion 400 540 40 40 30 7]
           (buildingsRef scene) sparks
           9000 10 (Some (mkCanvas 800 600)) 45 ->
           spawnPhase random 9516 (score a) a = a).
  { intros a ->. unfold spawnPhase, spawnDue, Rgtb, spawnRate. simpl.
    rewrite Rltb_intro_false; [reflexivity|].
    unfold Rmax. destruct (Rle_dec _ _); lra. }
  rewrite (Hs _ eq_refl).
  rewrite updateMissiles_eq. cbv zeta. cbn [missilesRef filter map
    arrivalBlasts arrivalBursts length app explosionsRef particlesRef
    buildingsRef].
  rewrite impacts_nil, !app_nil_r.
  rewrite updateExplosions_rounds.
  cbn [explosionsRef fold_left map]. unfold blastRound.
  cbn [missilesRef filter length captureBlasts captureBursts].
  rewrite updateParticles_eq.
  reflexivity.
Qed.

(** C7 (what the code does where the claim fails).  Frame N is the frame
    at time 9500 of [scene], in which the second enemy missile is caught and
    [createExplosion] is called at its position.  That secondary blast takes
    no part in the catch test of frame N, as the claim says; but it is not
    among the blasts after frame N either, so in frame N+1 no blast grows at
    (400, 521): the only blast that frame N+1 grows is the old one, whose
    timer goes from 30 to 29. *)
Theorem secondary_blast_never_grows (random : nat -> R) :
  let frameN := update random 9500 scene in
  let frameN1 := update random 9516 frameN in
  explosionsRef frameN = [mkExplosion 400 540 40 40 30 7]
  /\ explosionsRef frameN1
     = [mkExplosion 400 540 (sin ((1 - 29 / 60) * PI) * 40) 40 29 7]
  /\ missilesRef frameN1 = [].
Proof.
  cbv zeta. destruct (scene_tick random) as [sparks ->].
  destruct (scene_next_tick random sparks) as [sparks' ->].
  repeat split.
Qed.

(** The frame of [scene] at component level: the score changes, so the
    effect runs again and [initGame] starts the game afresh. *)
Lemma catch_restarts_game random w b :
  dispatch random w (Frame 9500) scene = Some b ->
  gameState b = playing /\ score b = 0%Z /\ explosionsRef b = []
  /\ buildingsRef b = layout (innerWidth w) (innerHeight w).
Proof.
  unfold dispatch. cbn [handle gameState scene isPlaying].
  destruct (scene_tick random) as [sparks Ht]. rewrite Ht.
  intros H; injection H as <-.
  split; [now rewrite commit_gameState|].
  match goal with |- context [commit w scene ?x] =>
    destruct (commit_fresh w scene x) as [(?&?&?&?&?&?) _];
      [reflexivity|reflexivity|simpl; discriminate|auto]
  end.
Qed.

(** ** The whole frame in closed form *)

Section Closed.

Variable random : nat -> R.

Lemma update_closed time a :
  canvas a <> None -> showHelp a = false ->
  spawnDue time (score a) a = false ->
  let flying := map advance (filter (fun m => negb (hasArrived m)) (missilesRef a)) in
  let blasts :=
    explosionsRef a
    ++ arrivalBlasts (filter hasArrived (missilesRef a)) (nextIdRef a) in
  missilesRef (update random time a)
  = filter (fun m => negb (existsb (fun e => caught (grow e) m) blasts)) flying
  /\ explosionsRef (update random time a) = filter stillBurning (map grow blasts)
  /\ (score (update random time a)
      + 20 * Z.of_nat (length (missilesRef (update random time a)))
      = score a + 20 * Z.of_nat (length flying))%Z.
Proof.
  intros Hc Hh Hd flying blasts.
  rewrite (update_phases random time a Hc Hh).
  unfold spawnPhase. rewrite Hd.
  destruct (checkWinLoss_frame (score a)
              (updateParticles (updateExplosions random (updateMissiles random a))))
    as (Hs&_&_&_&_&_&Hm&He&_).
  rewrite Hm, He, Hs. rewrite updateParticles_eq.
  cbn [setParticles missilesRef explosionsRef score].
  rewrite updateExplosions_rounds.
  cbn [setExplosions missilesRef explosionsRef score].
  destruct (blastRounds_spec random (explosionsRef (updateMissiles random a))
              (updateMissiles random a)) as (Hm' & Hs' & _ & _).
  cbv zeta in Hm', Hs'. rewrite Hs', Hm'.
  rewrite updateMissiles_eq. cbn [missilesRef explosionsRef score].
  fold flying blasts.
  repeat split.
Qed.

Lemma update_buildings time a :
  exists ms, buildingsRef (update random time a) = map (impacts ms) (buildingsRef a).
Proof.
  unfold update. destruct (canvas a) eqn:Hc;
    [|exists []; now rewrite impacts_nil].
  destruct (showHelp a) eqn:Hh; [exists []; now rewrite impacts_nil|].
  destruct (checkWinLoss_frame (score a) (beforeCheck random time a))
    as (_&_&_&_&_&_&_&_&Hb&_).
  unfold beforeCheck in Hb. rewrite Hb. rewrite updateParticles_eq.
  cbn [setParticles buildingsRef].
  rewrite updateExplosions_rounds. cbn [setExplosions buildingsRef].
  match goal with |- context [fold_left _ (explosionsRef ?x) ?x] =>
    destruct (blastRounds_spec random (explosionsRef x) x) as (_ & _ & Hb' & _)
  end.
  cbv zeta in Hb'. rewrite Hb'.
  rewrite updateMissiles_eq. cbn [buildingsRef].
  destruct (spawnPhase_session random time (score a) a) as (_&_&_&_&_&_&_&Hb'').
  rewrite Hb''. eexists. reflexivity.
Qed.

End Closed.

(** ** C10: destroyed batteries and the ammo *)

Inductive Action :=
| Tick (time : R)
| Fire (targetX targetY : R).

Definition act (random : nat -> R) (o : Action) (a : App) : App :=
  match o with
  | Tick time => update random time a
  | Fire targetX targetY => fireMissile targetX targetY a
  end.

(** A run of frames and shots within one game. *)
Definition run (random : nat -> R) (os : list Action) (a : App) : App :=
  fold_left (fun a o => act random o a) os a.

(** Every building that feeds on the pool [s] is destroyed. *)
Definition sideDown (s : Side) (a : App) : Prop :=
  forall b, In b (buildingsRef a) -> b_batterySide b = Some s ->
            b_isDestroyed b = true.

Lemma impacts_cases ms b : impacts ms b = b \/ impacts ms b = destroy b.
Proof. rewrite impacts_spec. destruct (_ && _); auto. Qed.

Lemma impacts_keep ms b :
  b_batterySide (impacts ms b) = b_batterySide b
  /\ (b_isDestroyed b = true -> b_isDestroyed (impacts ms b) = true).
Proof. destruct (impacts_cases ms b) as [-> | ->]; simpl; auto. Qed.

Lemma fireMissile_buildings targetX targetY a :
  buildingsRef (fireMissile targetX targetY a) = buildingsRef a.
Proof.
  unfold fireMissile. destruct (negb _ || _); [reflexivity|].
  destruct (filter isActiveBattery (buildingsRef a)); [reflexivity|].
  destruct (fst _) as [b0|]; [|reflexivity].
  destruct (b_batterySide b0); reflexivity.
Qed.

Lemma act_sideDown random s o a :
  sideDown s a ->
  sideDown s (act random o a)
  /\ ammoAt (ammo (act random o a)) s = ammoAt (ammo a) s.
Proof.
  intros Hd. destruct o as [time|targetX targetY]; simpl.
  - split; [|now rewrite update_ammo].
    destruct (update_buildings random time a) as [ms Hb].
    intros b' Hin Hs. rewrite Hb in Hin. apply in_map_iff in Hin as (b & <- & Hin).
    destruct (impacts_keep ms b) as [Hside Hkeep].
    apply Hkeep. apply Hd; [exact Hin|congruence].
  - split.
    + intros b. rewrite fireMissile_buildings. apply Hd.
    + destruct (fireMissile_ammo targetX targetY a)
        as [->|(b & side & (Hin & Hact & _) & Hside & _ & _ & _ & _ & ->)];
        [reflexivity|].
      apply ammoAt_ammoSet_other. intros ->.
      specialize (Hd b Hin Hside).
      unfold isActiveBattery, isLive in Hact. rewrite Hd in Hact.
      now rewrite andb_false_r in Hact.
Qed.

(** C10. The missile phase, the only place where buildings are marked
    destroyed, leaves the ammo as it is and changes a building at most by
    setting its [isDestroyed] flag; no frame changes the ammo.  Once every
    battery of a side is destroyed, no run of frames and shots changes that
    side's pool: the ammo stays in the mapping and is never spent, and the
    batteries stay destroyed. *)
Theorem destroyed_battery_keeps_ammo (random : nat -> R) (s : Side)
  (os : list Action) (a : App) :
  (ammo (updateMissiles random a) = ammo a
   /\ Forall2 (fun b b' => b' = b \/ b' = destroy b)
              (buildingsRef a) (buildingsRef (updateMissiles random a)))
  /\ (forall time, ammo (update random time a) = ammo a)
  /\ (sideDown s a ->
      ammoAt (ammo (run random os a)) s = ammoAt (ammo a) s
      /\ sideDown s (run random os a)).
Proof.
  split; [split|split].
  - destruct (updateMissiles_control random a) as (_ & H & _). now rewrite H.
  - rewrite updateMissiles_eq. cbn [buildingsRef].
    induction (buildingsRef a) as [|b bs IH]; simpl; constructor; auto.
    apply impacts_cases.
  - intros time. apply update_ammo.
  - revert a. unfold run. induction os as [|o os IH]; intros a Hd; simpl.
    + split; [reflexivity|exact Hd].
    + destruct (act_sideDown random s o a Hd) as [Hd' Ha].
      destruct (IH _ Hd') as [IH1 IH2]. split; [congruence|exact IH2].
Qed.

Lemma scene_center_down : sideDown center scene.
Proof.
  intros b Hin Hs. simpl in Hin.
  repeat (destruct Hin as [<-|Hin]; [simpl in *; try discriminate; reflexivity|]).
  contradiction.
Qed.

Lemma destroyed_battery_keeps_ammo_witness :
  sideDown center scene
  /\ ammoAt (ammo (run (fun _ => 0) [Fire 400 300; Tick 9500; Fire 390 100] scene))
            center = ammoAt (ammo scene) center.
Proof.
  split; [exact scene_center_down|].
  exact (proj1 (proj2 (proj2 (destroyed_battery_keeps_ammo (fun _ => 0) center
                                [Fire 400 300; Tick 9500; Fire 390 100] scene))
                  scene_center_down)).
Defined.

(** ** C9: the target of an enemy missile *)

(** C9. [spawnEnemy] gives the new enemy missile, as its target, the point
    that is the centre of a building which is not destroyed at that moment:
    two numbers computed then.  Afterwards the target never changes when the
    missile is moved, and the missile phase of a frame does not read the
    buildings for it: with any other list of buildings in the component
    (for instance with the targeted one marked destroyed) the same missiles
    remain, moved the same way, and the blasts of the arrived ones are set
    off at their targets; over a whole frame without a spawn the missiles,
    the blasts and the score come out the same. *)
Theorem target_fixed_at_spawn (random : nat -> R) (time : R) (a : App)
  (bs : list Building) (cv : Canvas) (b0 : Building) (others : list Building) :
  (canvas a = Some cv -> filter isLive (buildingsRef a) = b0 :: others ->
   exists b m,
     In b (buildingsRef a) /\ b_isDestroyed b = false
     /\ missilesRef (spawnEnemy random a) = missilesRef a ++ [m]
     /\ m_isEnemy m = true
     /\ m_target m = mkPoint (b_x b + b_width b / 2) (b_y b + b_height b / 2))
  /\ (forall m, m_target (advance m) = m_target m)
  /\ (missilesRef (updateMissiles random (setBuildings bs a))
      = missilesRef (updateMissiles random a)
      /\ explosionsRef (updateMissiles random (setBuildings bs a))
         = explosionsRef a
           ++ arrivalBlasts (filter hasArrived (missilesRef a)) (nextIdRef a))
  /\ (canvas a <> None -> showHelp a = false ->
      spawnDue time (score a) a = false ->
      missilesRef (update random time (setBuildings bs a))
      = missilesRef (update random time a)
      /\ explosionsRef (update random time (setBuildings bs a))
         = explosionsRef (update random time a)
      /\ score (update random time (setBuildings bs a))
         = score (update random time a)).
Proof.
  split; [|split; [|split]].
  - intros Hc Hf.
    pose proof (spawnEnemy_eq random a cv b0 others Hc Hf) as Heq.
    cbv zeta in Heq.
    set (i := Z.to_nat (floor (random (draws a) * INR (length (b0 :: others))))) in *.
    assert (Hin : In (nth i (b0 :: others) b0) (filter isLive (buildingsRef a))).
    { rewrite Hf. destruct (nth_in_or_default i (b0 :: others) b0) as [H| ->];
        [exact H|now left]. }
    apply filter_In in Hin as [Hin Hlive].
    exists (nth i (b0 :: others) b0). eexists.
    split; [exact Hin|]. split.
    + unfold isLive in Hlive. now destruct (b_isDestroyed _).
    + rewrite Heq. cbn [missilesRef]. split; [reflexivity|].
      split; reflexivity.
  - intros m. reflexivity.
  - rewrite !updateMissiles_eq. split; reflexivity.
  - intros Hc Hh Hd.
    destruct (update_closed random time a Hc Hh Hd) as (Hm & He & Hs).
    destruct (update_closed random time (setBuildings bs a) Hc Hh Hd)
      as (Hm' & He' & Hs').
    cbv zeta in *. cbn [setBuildings missilesRef explosionsRef nextIdRef score]
      in Hm', He', Hs'.
    split; [congruence|]. split; [congruence|].
    rewrite Hm' in Hs'. rewrite Hm in Hs. lia.
Qed.

Lemma scene_spawn_not_due : spawnDue 9500 (score scene) scene = false.
Proof.
  unfold spawnDue, Rgtb, spawnRate. simpl.
  apply Rltb_intro_false. unfold Rmax. destruct (Rle_dec _ _); lra.
Qed.

Definition leftBattery : Building :=
  mkBuilding 50 (600 - 40 - 30) 60 30 false battery 0 (Some left).

Lemma target_fixed_at_spawn_witness :
  canvas inPlay = Some (mkCanvas 800 600)
  /\ filter isLive (buildingsRef inPlay) = leftBattery :: tl (layout 800 600)
  /\ (exists b m,
        In b (buildingsRef inPlay) /\ b_isDestroyed b = false
        /\ missilesRef (spawnEnemy (fun _ => 0) inPlay) = missilesRef inPlay ++ [m]
        /\ m_isEnemy m = true
        /\ m_target m = mkPoint (b_x b + b_width b / 2) (b_y b + b_height b / 2))
  /\ canvas scene <> None /\ showHelp scene = false
  /\ spawnDue 9500 (score scene) scene = false
  /\ missilesRef (update (fun _ => 0) 9500 (setBuildings (layout 800 600) scene))
     = missilesRef (update (fun _ => 0) 9500 scene).
Proof.
  assert (H1 : canvas inPlay = Some (mkCanvas 800 600)) by reflexivity.
  assert (H2 : filter isLive (buildingsRef inPlay)
               = leftBattery :: tl (layout 800 600)) by reflexivity.
  split; [exact H1|]. split; [exact H2|].
  split.
  - exact (proj1 (target_fixed_at_spawn (fun _ => 0) 0 inPlay []
                    (mkCanvas 800 600) leftBattery (tl (layout 800 600))) H1 H2).
  - split; [exact scene_canvas|]. split; [reflexivity|].
    split; [exact scene_spawn_not_due|].
    exact (proj1 (proj2 (proj2 (proj2
             (target_fixed_at_spawn (fun _ => 0) 9500 scene (layout 800 600)
                (mkCanvas 800 600) leftBattery []))) scene_canvas eq_refl
             scene_spawn_not_due)).
Defined.

(** ** C8: the help overlay *)


Lemma effect_playing width height clock a :
  gameState a = playing -> canvas a <> None ->
  showHelp (effect width height clock a) = false.
Proof.
  intros Hp Hc. unfold effect, initGame. rewrite Hp.
  destruct (canvas a); [reflexivity|congruence].
Qed.


Lemma commit_playing w a b :
  depsChanged a b = true -> gameState b = playing -> canvas b <> None ->
  showHelp (commit w a b) = false /\ canvas (commit w a b) <> None.
Proof.
  intros Hd Hp Hc. unfold commit. rewrite Hd.
  destruct (effect_fresh (innerWidth w) (innerHeight w) (now w) b Hp Hc)
    as (_ & _ & Hc').
  assert (Hp' : gameState (effect (innerWidth w) (innerHeight w) (now w) b) = playing)
    by now rewrite effect_gameState.
  destruct (depsChanged b _).
  - split; [now apply effect_playing|].
    now apply (effect_fresh (innerWidth w) (innerHeight w) (later w) _ Hp' Hc').
  - split; [now apply effect_playing|exact Hc'].
Qed.




(** ** Further facts about the score and the help *)

(** A frame adds 20 to the score for every missile it drops in the blast
    phase, and nothing else. *)
Lemma update_score random time a :
  exists k : nat, score (update random time a) = (score a + 20 * Z.of_nat k)%Z.
Proof.
  unfold update. destruct (canvas a); [|exists 0%nat; simpl; lia].
  destruct (showHelp a); [exists 0%nat; simpl; lia|].
  set (a1 := spawnPhase random time (score a) a).
  set (a2 := updateMissiles random a1).
  destruct (checkWinLoss_frame (score a)
              (updateParticles (updateExplosions random a2))) as (Hs & _).
  rewrite Hs, updateParticles_eq. cbn [setParticles score].
  rewrite updateExplosions_rounds. cbn [setExplosions score].
  destruct (blastRounds_spec random (explosionsRef a2) a2) as (Hm & Hsc & _).
  cbv zeta in Hm, Hsc.
  set (a3 := fold_left (fun a e => blastRound random e a) (explosionsRef a2) a2) in *.
  assert (Hlen : (length (missilesRef a3) <= length (missilesRef a2))%nat).
  { rewrite Hm. apply filter_length_le. }
  assert (H2 : score a2 = score a).
  { unfold a2. rewrite updateMissiles_eq. cbn [score].
    apply (spawnPhase_session random time (score a) a). }
  exists (length (missilesRef a2) - length (missilesRef a3))%nat.
  rewrite Nat2Z.inj_sub by exact Hlen. lia.
Qed.

(** In [playing], pressing the help button changes [showHelp], hence the
    callback [update], hence a dependency of the effect: the effect runs
    [initGame], which closes the help again. *)
Lemma help_button_restarts random w a b :
  gameState a = playing -> showHelp a = false -> canvas a <> None ->
  dispatch random w HelpButton a = Some b ->
  showHelp b = false /\ isFresh (innerWidth w) (innerHeight w) b.
Proof.
  intros Hp Hh Hc Hd. unfold dispatch in Hd. cbn [handle] in Hd.
  rewrite Hp in Hd. cbn [isPlaying] in Hd. injection Hd as <-.
  assert (Hdeps : depsChanged a (setShowHelp true a) = true).
  { unfold depsChanged. cbn [setShowHelp showHelp]. rewrite Hh. simpl.
    now rewrite !andb_false_r. }
  split.
  - apply (commit_playing w a (setShowHelp true a) Hdeps Hp Hc).
  - apply (commit_fresh w a (setShowHelp true a) Hdeps Hp Hc).
Qed.

(** A shot that leaves a battery changes [ammo], hence the callback
    [update], hence a dependency of the effect: after the commit the game
    has been initialised again, without the missile just fired. *)
Lemma shot_restarts_game random w targetX targetY a b :
  gameState a = playing -> showHelp a = false -> canvas a <> None ->
  (exists b0, eligible a b0) ->
  dispatch random w (Pointer targetX targetY) a = Some b ->
  isFresh (innerWidth w) (innerHeight w) b.
Proof.
  intros Hp Hh Hc Hex Hd. unfold dispatch in Hd. cbn [handle] in Hd.
  rewrite Hp, Hh in Hd. cbn [isPlaying negb orb] in Hd. injection Hd as <-.
  destruct (fireMissile_fires targetX targetY a Hp Hh Hex)
    as (b0 & side & _ & _ & _ & Hfire & Ham).
  assert (Hdeps : depsChanged a (fireMissile targetX targetY a) = true).
  { unfold depsChanged. rewrite Ham.
    assert (eqAmmo (ammo a) (ammoSet (ammo a) side (ammoAt (ammo a) side - 1))
            = false) as ->.
    { unfold eqAmmo. destruct side; simpl.
      - replace (a_left (ammo a) =? a_left (ammo a) - 1)%Z with false; [reflexivity|].
        symmetry. apply Z.eqb_neq. lia.
      - replace (a_center (ammo a) =? a_center (ammo a) - 1)%Z with false;
          [now rewrite andb_false_r|].
        symmetry. apply Z.eqb_neq. lia.
      - replace (a_right (ammo a) =? a_right (ammo a) - 1)%Z with false;
          [now rewrite !andb_false_r|].
        symmetry. apply Z.eqb_neq. lia. }
    now rewrite !andb_false_r. }
  apply (commit_fresh w a (fireMissile targetX targetY a) Hdeps).
  - rewrite Hfire. unfold launch. destruct (b_batterySide b0); exact Hp.
  - rewrite Hfire. unfold launch. destruct (b_batterySide b0); exact Hc.
Qed.

(** ** What the page can reach *)

Lemma update_canvas random time a : canvas (update random time a) = canvas a.
Proof.
  unfold update. destruct (canvas a) eqn:Hc; [|exact Hc].
  destruct (showHelp a); [exact Hc|].
  destruct (checkWinLoss_frame (score a) (beforeCheck random time a))
    as (_ & _ & _ & H & _).
  unfold beforeCheck in H. rewrite H.
  destruct (beforeCheck_session random time a) as (_ & _ & _ & H' & _).
  unfold beforeCheck in H'. now rewrite H'.
Qed.

Lemma fireMissile_canvas targetX targetY a :
  canvas (fireMissile targetX targetY a) = canvas a.
Proof.
  unfold fireMissile. destruct (negb _ || _); [reflexivity|].
  destruct (filter isActiveBattery (buildingsRef a)); [reflexivity|].
  destruct (fst _) as [b0|]; [|reflexivity].
  destruct (b_batterySide b0); reflexivity.
Qed.

Lemma handle_canvas random ev a b :
  handle random ev a = Some b -> canvas b = canvas a.
Proof.
  destruct ev; simpl.
  - destruct (isPlaying (gameState a)); [|discriminate].
    intros H; injection H as <-. apply update_canvas.
  - intros H; injection H as <-. destruct (negb _ || _); [reflexivity|].
    apply fireMissile_canvas.
  - destruct (gameState a); try discriminate. now intros H; injection H as <-.
  - destruct (gameState a); try discriminate; now intros H; injection H as <-.
  - destruct (isPlaying (gameState a)); [|discriminate].
    now intros H; injection H as <-.
  - destruct (showHelp a); [|discriminate]. now intros H; injection H as <-.
  - destruct (gameState a); try discriminate; now intros H; injection H as <-.
  - now intros H; injection H as <-.
Qed.

Lemma depsChanged_false a b :
  depsChanged a b = false -> gameState a = gameState b /\ score a = score b.
Proof.
  unfold depsChanged. intros H. apply negb_false_iff in H.
  repeat (apply andb_prop in H as [H ?]).
  split; [now apply eqPhase_true|now apply Z.eqb_eq].
Qed.

Lemma update_won random time a :
  gameState a = playing -> gameState (update random time a) = won ->
  (1000 <= score a)%Z.
Proof.
  intros Hp. unfold update. destruct (canvas a); [|congruence].
  destruct (showHelp a); [congruence|].
  fold (beforeCheck random time a). unfold checkWinLoss, TARGET_SCORE.
  destruct (1000 <=? score a)%Z eqn:Hs; [intros _; now apply Z.leb_le|].
  destruct (Nat.eqb _ 0); simpl; [discriminate|].
  destruct (beforeCheck_session random time a) as (Hg & _). congruence.
Qed.

(** In every state the page can reach the canvas is there, a game in
    [playing] has score 0 (each change of the score makes the effect run
    [initGame] again), and the phase is never [won]. *)
Lemma reachable_score random a :
  Reachable random a ->
  canvas a <> None /\ (gameState a = playing -> score a = 0%Z)
  /\ gameState a <> won.
Proof.
  induction 1 as [|w ev a b Hr (IHc & IHs & IHw) Hd].
  - simpl. repeat split; discriminate.
  - unfold dispatch in Hd.
    destruct (handle random ev a) as [b'|] eqn:Hh; [|discriminate].
    injection Hd as <-.
    assert (Hc' : canvas b' <> None)
      by (rewrite (handle_canvas random ev a b' Hh); exact IHc).
    assert (Hw' : gameState b' <> won).
    { destruct (handle_gameState random ev a b' Hh)
        as [H|[(_&H&_)|[(_&H&_)|(Hp&[H|H]&(time&Hu))]]]; try congruence.
      subst b'. pose proof (update_won random time a Hp H).
      specialize (IHs Hp). lia. }
    destruct (depsChanged a b') eqn:Hdeps.
    + destruct (gameState b') eqn:Hg.
      * unfold commit. rewrite Hdeps. unfold effect. rewrite Hg. simpl.
        rewrite depsChanged_refl. repeat split; congruence.
      * destruct (commit_fresh w a b' Hdeps Hg Hc') as ((Hs & _) & _).
        destruct (commit_playing w a b' Hdeps Hg Hc') as (_ & Hc'').
        repeat split; auto. rewrite commit_gameState, Hg. discriminate.
      * congruence.
      * unfold commit. rewrite Hdeps. unfold effect. rewrite Hg. simpl.
        rewrite depsChanged_refl. repeat split; congruence.
    + unfold commit. rewrite Hdeps.
      apply depsChanged_false in Hdeps as [Hg Hs].
      repeat split; auto. intros Hp. rewrite <- Hs. apply IHs. congruence.
Qed.

(** * Further properties of the code *)

(** ** A frame as a whole *)

Section WholeFrame.

Variable random : nat -> R.

Lemma spawnPhase_refs time sc a :
  explosionsRef (spawnPhase random time sc a) = explosionsRef a
  /\ particlesRef (spawnPhase random time sc a) = particlesRef a
  /\ (nextIdRef a <= nextIdRef (spawnPhase random time sc a))%nat.
Proof.
  unfold spawnPhase. destruct (spawnDue time sc a); [|auto].
  unfold spawnEnemy. destruct (canvas a); [|simpl; auto].
  destruct (filter isLive (buildingsRef a)); simpl; auto.
Qed.

Lemma update_frame time a :
  canvas a <> None -> showHelp a = false ->
  let a1 := spawnPhase random time (score a) a in
  let flying := map advance (filter (fun m => negb (hasArrived m)) (missilesRef a1)) in
  let blasts :=
    explosionsRef a
    ++ arrivalBlasts (filter hasArrived (missilesRef a1)) (nextIdRef a1) in
  missilesRef (update random time a)
  = filter (fun m => negb (existsb (fun e => caught (grow e) m) blasts)) flying
  /\ explosionsRef (update random time a) = filter stillBurning (map grow blasts)
  /\ (score (update random time a)
      + 20 * Z.of_nat (length (missilesRef (update random time a)))
      = score a + 20 * Z.of_nat (length flying))%Z.
Proof.
  intros Hc Hh a1 flying blasts.
  rewrite (update_phases random time a Hc Hh). fold a1.
  destruct (checkWinLoss_frame (score a)
              (updateParticles (updateExplosions random (updateMissiles random a1))))
    as (Hs&_&_&_&_&_&Hm&He&_).
  rewrite Hm, He, Hs. rewrite updateParticles_eq.
  cbn [setParticles missilesRef explosionsRef score].
  rewrite updateExplosions_rounds.
  cbn [setExplosions missilesRef explosionsRef score].
  destruct (blastRounds_spec random (explosionsRef (updateMissiles random a1))
              (updateMissiles random a1)) as (Hm' & Hs' & _ & _).
  cbv zeta in Hm', Hs'. rewrite Hs', Hm'.
  rewrite updateMissiles_eq. cbn [missilesRef explosionsRef score].
  destruct (spawnPhase_refs time (score a) a) as (He1 & _).
  destruct (spawnPhase_session random time (score a) a) as (_&_&_&_&_&_&Hs1&_).
  fold a1 in He1, Hs1. rewrite He1, Hs1. fold flying blasts.
  repeat split.
Qed.

End WholeFrame.

(** X1. A frame that runs (canvas present, help closed), in closed form.
    After the spawn step, the missiles that have not arrived are advanced;
    the blasts of the frame are the blasts of before followed by one new
    blast per arrived missile, all of them grown once; a missile remains
    exactly when no grown blast of that list catches it, so the blast of a
    missile that arrives in this frame already catches in this frame; the
    blasts that remain are the grown ones whose timer is still positive; and
    the score rises by 20 for every advanced missile that does not remain. *)
Theorem frame_closed_form (random : nat -> R) (time : R) (a : App) :
  canvas a <> None -> showHelp a = false ->
  let a1 := spawnPhase random time (score a) a in
  let flying := map advance (filter (fun m => negb (hasArrived m)) (missilesRef a1)) in
  let blasts :=
    explosionsRef a
    ++ arrivalBlasts (filter hasArrived (missilesRef a1)) (nextIdRef a1) in
  missilesRef (update random time a)
  = filter (fun m => negb (existsb (fun e => caught (grow e) m) blasts)) flying
  /\ explosionsRef (update random time a) = filter stillBurning (map grow blasts)
  /\ (score (update random time a)
      = score a
        + 20 * (Z.of_nat (length flying)
                - Z.of_nat (length (missilesRef (update random time a)))))%Z.
Proof.
  intros Hc Hh a1 flying blasts.
  destruct (update_frame random time a Hc Hh) as (Hm & He & Hs).
  cbv zeta in Hm, He, Hs. fold a1 in Hm, He, Hs. fold flying blasts in Hm, He, Hs.
  split; [exact Hm|]. split; [exact He|]. lia.
Qed.

Lemma frame_closed_form_witness :
  canvas scene <> None /\ showHelp scene = false
  /\ explosionsRef (update (fun _ => 0) 9500 scene)
     = filter stillBurning
         (map grow
            (explosionsRef scene
             ++ arrivalBlasts
                  (filter hasArrived
                     (missilesRef (spawnPhase (fun _ => 0) 9500 (score scene) scene)))
                  (nextIdRef (spawnPhase (fun _ => 0) 9500 (score scene) scene)))).
Proof.
  split; [exact scene_canvas|]. split; [reflexivity|].
  exact (proj1 (proj2 (frame_closed_form (fun _ => 0) 9500 scene scene_canvas eq_refl))).
Defined.

(** ** The blast phase *)

Definition isPlayerMissile (m : Missile) : bool := negb (m_isEnemy m).

Lemma filter_kept_players (keep : Missile -> bool) (ms : list Missile) :
  (forall m, keep m = false -> m_isEnemy m = true) ->
  filter isPlayerMissile (filter keep ms) = filter isPlayerMissile ms.
Proof.
  intros Hk. induction ms as [|m ms IH]; [reflexivity|]. simpl.
  destruct (keep m) eqn:Hm; simpl.
  - now rewrite IH.
  - rewrite IH. unfold isPlayerMissile. now rewrite (Hk m Hm).
Qed.

Lemma blastPhase_missiles random a :
  missilesRef (updateExplosions random a)
  = filter (fun m => negb (existsb (fun e => caught (grow e) m) (explosionsRef a)))
           (missilesRef a)
  /\ (score (updateExplosions random a)
      + 20 * Z.of_nat (length (missilesRef (updateExplosions random a)))
      = score a + 20 * Z.of_nat (length (missilesRef a)))%Z.
Proof.
  rewrite updateExplosions_rounds. cbn [setExplosions missilesRef score].
  destruct (blastRounds_spec random (explosionsRef a) a) as (Hm & Hs & _).
  split; assumption.
Qed.

(** X2. The blast phase of a frame removes enemy missiles only: the player
    missiles in flight are the same before and after it, no missile is
    altered by it, and the score rises by exactly 20 times the number of
    enemy missiles it removes. *)
Theorem blasts_remove_enemies_only (random : nat -> R) (a : App) :
  filter isPlayerMissile (missilesRef (updateExplosions random a))
  = filter isPlayerMissile (missilesRef a)
  /\ (forall m, In m (missilesRef (updateExplosions random a)) ->
                In m (missilesRef a))
  /\ (score (updateExplosions random a)
      = score a
        + 20 * (Z.of_nat (length (filter m_isEnemy (missilesRef a)))
                - Z.of_nat (length (filter m_isEnemy
                                      (missilesRef (updateExplosions random a))))))%Z.
Proof.
  destruct (blastPhase_missiles random a) as (Hm & Hs).
  assert (Hp : filter isPlayerMissile (missilesRef (updateExplosions random a))
               = filter isPlayerMissile (missilesRef a)).
  { rewrite Hm. apply filter_kept_players. intros m Hk.
    apply negb_false_iff in Hk. apply existsb_exists in Hk as (e & _ & Hc).
    unfold caught in Hc. now apply andb_prop in Hc as [Hc _]. }
  split; [exact Hp|]. split.
  - intros m Hin. rewrite Hm in Hin. now apply filter_In in Hin as [Hin _].
  - pose proof (filter_split_length m_isEnemy (missilesRef a)) as H1.
    pose proof (filter_split_length m_isEnemy
                  (missilesRef (updateExplosions random a))) as H2.
    fold isPlayerMissile in H1, H2.
    change (filter (fun x => negb (m_isEnemy x))) with (filter isPlayerMissile) in H1, H2.
    rewrite Hp in H2. lia.
Qed.

(** ** The blasts between frames *)










(** ** The flight of a missile *)







(** ** The particles *)



Definition aliveAfter (n : nat) (p : Particle) : bool :=
  Rltb (INR n * (2 / 100)) (p_life p).







Definition isFreshParticle (p : Particle) : Prop := p_life p = 1.

Lemma burst_fresh random n x y d : Forall isFreshParticle (burst random n x y d).
Proof.
  revert d. induction n; intros d; simpl; constructor; auto. reflexivity.
Qed.


Lemma arrivalBursts_fresh random ms d :
  Forall isFreshParticle (arrivalBursts random ms d).
Proof.
  revert d. induction ms as [|m ms IH]; intros d; [constructor|].
  cbn [arrivalBursts]. apply Forall_app. split; [apply burst_fresh|apply IH].
Qed.


Lemma filter_fresh ps :
  Forall isFreshParticle ps -> filter (aliveAfter 1) ps = ps.
Proof.
  induction 1 as [|p ps Hp _ IH]; [reflexivity|]. cbn [filter].
  assert (aliveAfter 1 p = true) as ->.
  { unfold aliveAfter. apply Rltb_intro_true. rewrite Hp. simpl. lra. }
  now rewrite IH.
Qed.


Lemma update_showHelp random time a :
  showHelp (update random time a) = showHelp a.
Proof.
  unfold update. destruct (canvas a); [|reflexivity].
  destruct (showHelp a) eqn:Hh; [exact Hh|].
  destruct (checkWinLoss_frame (score a) (beforeCheck random time a))
    as (_ & _ & H & _).
  unfold beforeCheck in H. rewrite H.
  destruct (beforeCheck_session random time a) as (_ & _ & H' & _).
  unfold beforeCheck in H'. now rewrite H'.
Qed.



(** ** Identifiers *)

(** The identifiers in use are pairwise different and below the counter. *)
Definition idsOK (ms : list Missile) (es : list Explosion) (n : nat) : Prop :=
  NoDup (map m_id ms) /\ NoDup (map e_id es)
  /\ (forall m e, In m ms -> In e es -> m_id m <> e_id e)
  /\ (forall m, In m ms -> (m_id m < n)%nat)
  /\ (forall e, In e es -> (e_id e < n)%nat).

Definition idsFresh (a : App) : Prop :=
  idsOK (missilesRef a) (explosionsRef a) (nextIdRef a).

Lemma NoDup_map_filter {X : Type} (g : X -> nat) (f : X -> bool) (xs : list X) :
  NoDup (map g xs) -> NoDup (map g (filter f xs)).
Proof.
  induction xs as [|x xs IH]; intros H; [constructor|].
  simpl in H. inversion H as [|? ? Hn Hd]; subst. simpl.
  destruct (f x); [|now apply IH]. simpl. constructor; [|now apply IH].
  intros Hin. apply Hn. apply in_map_iff in Hin as (y & Hy & Hin).
  apply filter_In in Hin as [Hin _]. apply in_map_iff. eauto.
Qed.

Lemma idsOK_sub ms es n ms' es' n' :
  idsOK ms es n ->
  NoDup (map m_id ms') -> NoDup (map e_id es') ->
  (forall m', In m' ms' -> exists m, In m ms /\ m_id m' = m_id m) ->
  (forall e', In e' es' -> exists e, In e es /\ e_id e' = e_id e) ->
  (n <= n')%nat ->
  idsOK ms' es' n'.
Proof.
  intros (_ & _ & Hx & Hm & He) Hn1 Hn2 Hs1 Hs2 Hle.
  split; [exact Hn1|]. split; [exact Hn2|]. split; [|split].
  - intros m' e' Hin1 Hin2.
    destruct (Hs1 m' Hin1) as (m & Hm1 & ->).
    destruct (Hs2 e' Hin2) as (e & He1 & ->). now apply Hx.
  - intros m' Hin. destruct (Hs1 m' Hin) as (m & Hm1 & ->).
    specialize (Hm m Hm1). lia.
  - intros e' Hin. destruct (Hs2 e' Hin) as (e & He1 & ->).
    specialize (He e He1). lia.
Qed.

Lemma idsOK_add_missile ms es n m :
  idsOK ms es n -> m_id m = n -> idsOK (ms ++ [m]) es (S n).
Proof.
  intros (Hn1 & Hn2 & Hx & Hm & He) Hid.
  split; [|split; [exact Hn2|split; [|split]]].
  - rewrite map_app. apply NoDup_app; [exact Hn1|repeat constructor; auto|].
    intros i Hin [<-|[]]. apply in_map_iff in Hin as (m0 & Hi & Hin).
    specialize (Hm m0 Hin). lia.
  - intros m0 e Hin He0. apply in_app_or in Hin as [Hin|[<-|[]]].
    + now apply Hx.
    + specialize (He e He0). lia.
  - intros m0 Hin. apply in_app_or in Hin as [Hin|[<-|[]]].
    + specialize (Hm m0 Hin). lia.
    + lia.
  - intros e Hin. specialize (He e Hin). lia.
Qed.

Lemma arrivalBlasts_ids ms id :
  map e_id (arrivalBlasts ms id) = seq id (length ms).
Proof.
  revert id. induction ms as [|m ms IH]; intros id; [reflexivity|].
  simpl. now rewrite IH.
Qed.

Lemma idsOK_add_blasts ms es n arrived :
  idsOK ms es n ->
  idsOK ms (es ++ arrivalBlasts arrived n) (n + length arrived).
Proof.
  intros (Hn1 & Hn2 & Hx & Hm & He).
  assert (Hnew : forall e, In e (arrivalBlasts arrived n) ->
                           (n <= e_id e < n + length arrived)%nat).
  { intros e Hin. apply in_seq. rewrite <- arrivalBlasts_ids.
    apply in_map_iff. eauto. }
  split; [exact Hn1|]. split; [|split; [|split]].
  - rewrite map_app. apply NoDup_app; [exact Hn2| |].
    + rewrite arrivalBlasts_ids. apply seq_NoDup.
    + intros i Hin Hin'. apply in_map_iff in Hin as (e & <- & Hin).
      apply in_map_iff in Hin' as (e' & Hi & Hin').
      specialize (He e Hin). specialize (Hnew e' Hin'). lia.
  - intros m e Hin1 Hin2. apply in_app_or in Hin2 as [Hin2|Hin2].
    + now apply Hx.
    + specialize (Hm m Hin1). specialize (Hnew e Hin2). lia.
  - intros m Hin. specialize (Hm m Hin). lia.
  - intros e Hin. apply in_app_or in Hin as [Hin|Hin].
    + specialize (He e Hin). lia.
    + specialize (Hnew e Hin). lia.
Qed.

Section Identifiers.

Variable random : nat -> R.

Lemma spawnPhase_ids time sc a :
  idsFresh a -> idsFresh (spawnPhase random time sc a).
Proof.
  intros H. unfold spawnPhase. destruct (spawnDue time sc a); [|exact H].
  unfold idsFresh. cbn [setLastEnemySpawn missilesRef explosionsRef nextIdRef].
  destruct (canvas a) as [cv|] eqn:Hc;
    [|unfold spawnEnemy; rewrite Hc; exact H].
  destruct (filter isLive (buildingsRef a)) as [|b0 others] eqn:Hf;
    [unfold spawnEnemy; rewrite Hc, Hf; exact H|].
  rewrite (spawnEnemy_eq random a cv b0 others Hc Hf).
  cbn [missilesRef explosionsRef nextIdRef].
  apply idsOK_add_missile; [exact H|reflexivity].
Qed.

Lemma updateMissiles_ids a :
  idsFresh a -> idsFresh (updateMissiles random a).
Proof.
  intros H. unfold idsFresh. rewrite updateMissiles_eq.
  cbn [missilesRef explosionsRef nextIdRef].
  pose proof (idsOK_add_blasts _ _ _ (filter hasArrived (missilesRef a)) H) as H'.
  destruct H' as (Hn1 & Hn2 & Hx & Hm & He).
  eapply idsOK_sub; [split; [exact Hn1|split; [exact Hn2|split; [exact Hx|split;
    [exact Hm|exact He]]]]| | | | |].
  - rewrite map_map. cbn [advance m_id].
    apply (NoDup_map_filter m_id). exact Hn1.
  - exact Hn2.
  - intros m' Hin. apply in_map_iff in Hin as (m & <- & Hin).
    apply filter_In in Hin as [Hin _]. exists m. split; [exact Hin|reflexivity].
  - intros e' Hin. exists e'. split; [exact Hin|reflexivity].
  - lia.
Qed.

Lemma blastRounds_nextId es : forall a,
  (nextIdRef a <= nextIdRef (fold_left (fun a e => blastRound random e a) es a))%nat.
Proof.
  induction es as [|e es IH]; intros a; [simpl; lia|].
  cbn [fold_left]. specialize (IH (blastRound random e a)).
  cbn [blastRound nextIdRef] in IH. lia.
Qed.

Lemma updateExplosions_ids a :
  idsFresh a -> idsFresh (updateExplosions random a).
Proof.
  intros H. unfold idsFresh. rewrite updateExplosions_rounds.
  cbn [setExplosions missilesRef explosionsRef nextIdRef].
  destruct (blastRounds_spec random (explosionsRef a) a) as (Hm & _).
  cbv zeta in Hm. rewrite Hm.
  pose proof H as (Hn1 & Hn2 & _).
  eapply idsOK_sub; [exact H| | | | |].
  - apply (NoDup_map_filter m_id). exact Hn1.
  - rewrite filter_map_swap, map_map. cbn [grow e_id].
    apply (NoDup_map_filter e_id). exact Hn2.
  - intros m' Hin. apply filter_In in Hin as [Hin _]. eauto.
  - intros e' Hin. apply filter_In in Hin as [Hin _].
    apply in_map_iff in Hin as (e & <- & Hin). exists e. split; [exact Hin|reflexivity].
  - apply blastRounds_nextId.
Qed.

Lemma update_ids time a : idsFresh a -> idsFresh (update random time a).
Proof.
  intros H. unfold update. destruct (canvas a); [|exact H].
  destruct (showHelp a); [exact H|].
  set (a1 := spawnPhase random time (score a) a).
  assert (H3 : idsFresh (updateExplosions random (updateMissiles random a1))).
  { apply updateExplosions_ids, updateMissiles_ids, spawnPhase_ids, H. }
  set (a3 := updateExplosions random (updateMissiles random a1)) in *.
  destruct (checkWinLoss_frame (score a) (updateParticles a3))
    as (_&_&_&_&_&_&Hm&He&_).
  unfold idsFresh. rewrite Hm, He.
  rewrite updateParticles_eq. cbn [setParticles missilesRef explosionsRef].
  replace (nextIdRef (checkWinLoss (score a)
             (setParticles (fst (filterRef particleCallback (particlesRef a3) a3)) a3)))
    with (nextIdRef a3); [exact H3|].
  unfold checkWinLoss. destruct (TARGET_SCORE <=? score a)%Z; [reflexivity|].
  destruct (Nat.eqb _ 0); reflexivity.
Qed.

Lemma fireMissile_shape targetX targetY a :
  fireMissile targetX targetY a = a
  \/ exists b, fireMissile targetX targetY a = launch targetX targetY a b.
Proof.
  unfold fireMissile. destruct (negb _ || _); [now left|].
  destruct (filter isActiveBattery (buildingsRef a)); [now left|].
  destruct (fst _) as [b0|]; [|now left]. right. exists b0. reflexivity.
Qed.

Lemma fireMissile_ids targetX targetY a :
  idsFresh a -> idsFresh (fireMissile targetX targetY a).
Proof.
  intros H. destruct (fireMissile_shape targetX targetY a) as [->|[b ->]];
    [exact H|].
  unfold idsFresh, launch.
  destruct (b_batterySide b); cbn [setNextId setMissiles setAmmo missilesRef
    explosionsRef nextIdRef]; (apply idsOK_add_missile; [exact H|reflexivity]).
Qed.

Lemma idsOK_empty n : idsOK [] [] n.
Proof. repeat split; simpl; try constructor; intros; contradiction. Qed.

Lemma initGame_ids width height a : idsFresh a -> idsFresh (initGame width height a).
Proof.
  intros H. unfold initGame. destruct (canvas a); [|exact H].
  unfold idsFresh. simpl. apply idsOK_empty.
Qed.

Lemma effect_ids width height clock a :
  idsFresh a -> idsFresh (effect width height clock a).
Proof.
  intros H. unfold effect. destruct (isPlaying (gameState a)); [|exact H].
  apply (initGame_ids width height a) in H. exact H.
Qed.

Lemma reachable_ids a : Reachable random a -> idsFresh a.
Proof.
  induction 1 as [|w ev a b Hr IH Hd].
  - apply idsOK_empty.
  - unfold dispatch in Hd.
    destruct (handle random ev a) as [b'|] eqn:Hh; [|discriminate].
    injection Hd as <-.
    assert (H' : idsFresh b').
    { destruct ev; simpl in Hh.
      - destruct (isPlaying (gameState a)); [|discriminate].
        injection Hh as <-. now apply update_ids.
      - injection Hh as <-. destruct (negb _ || _); [exact IH|].
        now apply fireMissile_ids.
      - destruct (gameState a); try discriminate. injection Hh as <-. exact IH.
      - destruct (gameState a); try discriminate; injection Hh as <-; exact IH.
      - destruct (isPlaying (gameState a)); [|discriminate].
        injection Hh as <-. exact IH.
      - destruct (showHelp a); [|discriminate]. injection Hh as <-. exact IH.
      - destruct (gameState a); try discriminate; injection Hh as <-; exact IH.
      - injection Hh as <-. exact IH. }
    unfold commit. destruct (depsChanged a b'); [|exact H'].
    destruct (depsChanged b' _); repeat apply effect_ids; exact H'.
Qed.

End Identifiers.

(** X6. The identifiers handed out by [nextIdRef] stay unique: when the
    identifiers of the missiles and blasts in the component are pairwise
    different and below the counter, they still are after a frame, after a
    shot and after [initGame]; and they are so in every state the page can
    reach. *)
Theorem identifiers_stay_unique (random : nat -> R) (time targetX targetY : R)
  (width height : R) (a : App) :
  (idsFresh a ->
   idsFresh (update random time a)
   /\ idsFresh (fireMissile targetX targetY a)
   /\ idsFresh (initGame width height a))
  /\ (Reachable random a -> idsFresh a).
Proof.
  split.
  - intros H. split; [now apply update_ids|].
    split; [now apply fireMissile_ids|now apply initGame_ids].
  - apply reachable_ids.
Qed.

Lemma scene_ids : idsFresh scene.
Proof.
  unfold idsFresh, idsOK. simpl.
  repeat split; try (repeat constructor; simpl; tauto).
  - intros m e [<-|[]] [<-|[]]. simpl. discriminate.
  - intros m [<-|[]]. simpl. lia.
  - intros e [<-|[]]. simpl. lia.
Qed.

Lemma identifiers_stay_unique_witness :
  idsFresh scene
  /\ Reachable (fun _ => 0) mounted
  /\ (idsFresh (update (fun _ => 0) 9500 scene)
      /\ idsFresh (fireMissile 100 200 scene)
      /\ idsFresh (initGame 800 600 scene))
  /\ idsFresh mounted.
Proof.
  split; [exact scene_ids|]. split; [apply reach_mounted|]. split.
  - exact (proj1 (identifiers_stay_unique (fun _ => 0) 9500 100 200 800 600 scene)
             scene_ids).
  - exact (proj2 (identifiers_stay_unique (fun _ => 0) 9500 100 200 800 600 mounted)
             (reach_mounted (fun _ => 0))).
Defined.

(** ** The buildings *)

(** [b'] is [b], or [b] newly marked destroyed. *)
Definition marked (b b' : Building) : Prop :=
  b' = b \/ (b_isDestroyed b = false /\ b' = destroy b).

Lemma marked_trans b1 b2 b3 : marked b1 b2 -> marked b2 b3 -> marked b1 b3.
Proof.
  intros [->|[H1 ->]] [->|[H2 ->]]; unfold marked; auto;
    simpl in H2; discriminate.
Qed.

Lemma Forall2_marked_refl bs : Forall2 marked bs bs.
Proof. induction bs; constructor; auto. now left. Qed.

Lemma Forall2_marked_trans l1 : forall l2 l3,
  Forall2 marked l1 l2 -> Forall2 marked l2 l3 -> Forall2 marked l1 l3.
Proof.
  induction l1 as [|b l1 IH]; intros l2 l3 H12 H23.
  - inversion H12; subst. inversion H23; subst. constructor.
  - inversion H12; subst. inversion H23; subst. constructor.
    + eapply marked_trans; eauto.
    + eapply IH; eauto.
Qed.

Lemma impacts_marked ms bs : Forall2 marked bs (map (impacts ms) bs).
Proof.
  induction bs as [|b bs IH]; simpl; constructor; [|exact IH].
  rewrite impacts_spec. destruct (b_isDestroyed b) eqn:Hd; simpl.
  - now left.
  - destruct (existsb _ ms); [right; auto|now left].
Qed.

Lemma run_marked random os : forall a,
  Forall2 marked (buildingsRef a) (buildingsRef (run random os a)).
Proof.
  unfold run. induction os as [|o os IH]; intros a.
  - apply Forall2_marked_refl.
  - cbn [fold_left]. eapply Forall2_marked_trans; [|apply IH].
    destruct o as [time|targetX targetY]; simpl.
    + destruct (update_buildings random time a) as [ms ->].
      apply impacts_marked.
    + rewrite fireMissile_buildings. apply Forall2_marked_refl.
Qed.

(** X7. Over any run of frames and shots, the list of buildings keeps its
    length and order, and every building keeps its position, size, kind,
    identifier and side; a building that is destroyed stays destroyed. *)
Theorem buildings_only_get_destroyed (random : nat -> R) (os : list Action)
  (a : App) :
  Forall2 (fun b b' =>
             b_x b' = b_x b /\ b_y b' = b_y b
             /\ b_width b' = b_width b /\ b_height b' = b_height b
             /\ b_type b' = b_type b /\ b_id b' = b_id b
             /\ b_batterySide b' = b_batterySide b
             /\ (b_isDestroyed b = true -> b_isDestroyed b' = true))
          (buildingsRef a) (buildingsRef (run random os a)).
Proof.
  pose proof (run_marked random os a) as H.
  induction H as [|b b' l l' Hm _ IH]; constructor; [|exact IH].
  destruct Hm as [->|[_ ->]]; simpl; tauto.
Qed.

(** ** The choice of the battery *)

(** What the loop of [fireMissile] has established after the batteries
    [seen], with the place of the chosen one. *)
Definition pickOrder (am : Ammo) (targetX : R) (seen : list Building)
  (acc : option Building * ExtNum) : Prop :=
  match acc with
  | (None, Infinity) => forall b, In b seen -> hasAmmo am b = false
  | (Some b, Finite d) =>
      exists before after,
        seen = before ++ b :: after
        /\ hasAmmo am b = true /\ d = aimDist targetX b
        /\ (forall b', In b' before -> hasAmmo am b' = true -> d < aimDist targetX b')
        /\ (forall b', In b' after -> hasAmmo am b' = true -> d <= aimDist targetX b')
  | _ => False
  end.

Lemma pickCallback_order am targetX seen b acc :
  pickOrder am targetX seen acc ->
  pickOrder am targetX (seen ++ [b]) (pickCallback am targetX b acc).
Proof.
  intros H. unfold pickCallback. destruct acc as [best minDist].
  destruct (hasAmmo am b) eqn:Hb.
  - fold (aimDist targetX b).
    destruct best as [b0|], minDist as [d|]; simpl in H; try contradiction; simpl.
    + destruct H as (before & after & Hs & Ham & Hd & Hlt & Hle).
      destruct (Rltb (aimDist targetX b) d) eqn:Hc; simpl.
      * apply Rltb_true in Hc. exists seen, []. repeat split; auto.
        -- intros b' Hin Ham'. rewrite Hs in Hin.
           apply in_app_or in Hin as [Hin|[<-|Hin]].
           ++ specialize (Hlt b' Hin Ham'). lra.
           ++ lra.
           ++ specialize (Hle b' Hin Ham'). lra.
        -- intros b' [].
      * apply Rltb_false in Hc. exists before, (after ++ [b]).
        repeat split; auto.
        -- rewrite Hs, <- app_assoc. reflexivity.
        -- intros b' Hin Ham'. apply in_app_or in Hin as [Hin|[<-|[]]]; auto.
    + exists seen, []. repeat split; auto.
      * intros b' Hin Ham'. rewrite (H b' Hin) in Ham'. discriminate.
      * intros b' [].
  - destruct best as [b0|], minDist as [d|]; simpl in H; try contradiction; simpl.
    + destruct H as (before & after & Hs & Ham & Hd & Hlt & Hle).
      exists before, (after ++ [b]). repeat split; auto.
      * rewrite Hs, <- app_assoc. reflexivity.
      * intros b' Hin Ham'. apply in_app_or in Hin as [Hin|[<-|[]]]; auto.
        congruence.
    + intros b' Hin. apply in_app_or in Hin as [Hin|[<-|[]]]; auto.
Qed.

Lemma pickBattery_order am targetX batteries :
  pickOrder am targetX batteries (pickBattery am targetX batteries).
Proof.
  unfold pickBattery.
  assert (H : forall l seen acc, pickOrder am targetX seen acc ->
            pickOrder am targetX (seen ++ l)
              (fold_left (fun acc b => pickCallback am targetX b acc) l acc)).
  { induction l as [|b l IH]; intros seen acc Hi; simpl.
    - now rewrite app_nil_r.
    - replace (seen ++ b :: l) with ((seen ++ [b]) ++ l)
        by (rewrite <- app_assoc; reflexivity).
      apply IH. now apply pickCallback_order. }
  apply (H batteries [] (None, Infinity)). simpl. intros b [].
Qed.

(** X8. Among the batteries that are not destroyed and have ammo, a shot
    leaves the first one, in the order of the array (left, centre, right),
    that is nearest to the aimed abscissa: every such battery before the
    chosen one is strictly farther, every one after it is at least as far.
    A tie goes to the battery that comes first. *)
Theorem first_nearest_battery_fires (targetX targetY : R) (a : App) :
  gameState a = playing -> showHelp a = false ->
  (exists b, eligible a b) ->
  exists b before after,
    filter isActiveBattery (buildingsRef a) = before ++ b :: after
    /\ hasAmmo (ammo a) b = true
    /\ fireMissile targetX targetY a = launch targetX targetY a b
    /\ (forall b', In b' before -> hasAmmo (ammo a) b' = true ->
                   aimDist targetX b < aimDist targetX b')
    /\ (forall b', In b' after -> hasAmmo (ammo a) b' = true ->
                   aimDist targetX b <= aimDist targetX b').
Proof.
  intros Hp Hh [b0 (Hin0 & Hact0 & Ham0)].
  rewrite (fireMissile_guarded targetX targetY a Hp Hh).
  pose proof (pickBattery_order (ammo a) targetX
                (filter isActiveBattery (buildingsRef a))) as Hinv.
  destruct (pickBattery _ _ _) as [[b|] [d|]]; simpl in *; try contradiction.
  - destruct Hinv as (before & after & Hs & Ham & Hd & Hlt & Hle).
    exists b, before, after. subst d. repeat split; auto.
  - assert (hasAmmo (ammo a) b0 = false) as Hf
        by (apply Hinv; apply filter_In; auto).
    congruence.
Qed.

Lemma first_nearest_battery_fires_witness :
  gameState inPlay = playing /\ showHelp inPlay = false
  /\ (exists b, eligible inPlay b)
  /\ exists b before after,
       filter isActiveBattery (buildingsRef inPlay) = before ++ b :: after
       /\ hasAmmo (ammo inPlay) b = true
       /\ fireMissile 240 200 inPlay = launch 240 200 inPlay b
       /\ (forall b', In b' before -> hasAmmo (ammo inPlay) b' = true ->
                      aimDist 240 b < aimDist 240 b')
       /\ (forall b', In b' after -> hasAmmo (ammo inPlay) b' = true ->
                      aimDist 240 b <= aimDist 240 b').
Proof.
  assert (H1 : gameState inPlay = playing) by reflexivity.
  assert (H2 : showHelp inPlay = false) by reflexivity.
  assert (H3 : exists b, eligible inPlay b).
  { exists leftBattery. split; [simpl; left; reflexivity|]. split; reflexivity. }
  split; [exact H1|]. split; [exact H2|]. split; [exact H3|].
  exact (first_nearest_battery_fires 240 200 inPlay H1 H2 H3).
Defined.

(** ** The spawn interval *)

(** X9. The spawn interval as a function of the score: it is
    [(2000 - 2 * score)] times the difficulty's spawn multiplier up to score
    750 and [500] times the multiplier from 750 on; it never grows when the
    score grows, and it is never below 350 ms. *)
Theorem spawn_interval_shape (sc sc' : Z) (d : Difficulty) :
  ((sc <= 750)%Z ->
   spawnRate sc d = (2000 - 2 * IZR sc) * spawnMult (getDifficultyModifiers d))
  /\ ((750 <= sc)%Z ->
      spawnRate sc d = 500 * spawnMult (getDifficultyModifiers d))
  /\ ((sc <= sc')%Z -> spawnRate sc' d <= spawnRate sc d)
  /\ 350 <= spawnRate sc d.
Proof.
  assert (Hm : 7 / 10 <= spawnMult (getDifficultyModifiers d))
    by (destruct d; simpl; lra).
  unfold spawnRate. cbv zeta.
  split; [|split; [|split]].
  - intros H. apply IZR_le in H. f_equal.
    unfold Rmax. destruct (Rle_dec _ _); lra.
  - intros H. apply IZR_le in H. f_equal.
    unfold Rmax. destruct (Rle_dec _ _); lra.
  - intros H. apply IZR_le in H.
    apply Rmult_le_compat_r; [lra|].
    unfold Rmax. destruct (Rle_dec _ _), (Rle_dec _ _); lra.
  - assert (500 <= Rmax 500 (2000 - IZR sc / 100 * 200)) by apply Rmax_l.
    nra.
Qed.

Lemma spawn_interval_shape_witness :
  (0 <= 750)%Z /\ (750 <= 1000)%Z /\ (0 <= 1000)%Z
  /\ spawnRate 0 hard = (2000 - 2 * IZR 0) * spawnMult (getDifficultyModifiers hard)
  /\ spawnRate 1000 hard = 500 * spawnMult (getDifficultyModifiers hard)
  /\ spawnRate 1000 hard <= spawnRate 0 hard.
Proof.
  assert (H1 : (0 <= 750)%Z) by lia.
  assert (H2 : (750 <= 1000)%Z) by lia.
  assert (H3 : (0 <= 1000)%Z) by lia.
  split; [exact H1|]. split; [exact H2|]. split; [exact H3|].
  split; [exact (proj1 (spawn_interval_shape 0 1000 hard) H1)|].
  split; [exact (proj1 (proj2 (spawn_interval_shape 1000 1000 hard)) H2)|].
  exact (proj1 (proj2 (proj2 (spawn_interval_shape 0 1000 hard))) H3).
Defined.

(** ** Where the missiles of a frame come from *)






(** ** The effect, and what the page can reach *)

Lemma eqAmmo_true x y : eqAmmo x y = true -> x = y.
Proof.
  unfold eqAmmo. intros H. apply andb_prop in H as [H H3].
  apply andb_prop in H as [H1 H2].
  apply Z.eqb_eq in H1, H2, H3. destruct x, y; simpl in *. congruence.
Qed.

Lemma depsChanged_same a b :
  depsChanged a b = false ->
  gameState a = gameState b /\ score a = score b /\ ammo a = ammo b
  /\ showHelp a = showHelp b.
Proof.
  unfold depsChanged. intros H. apply negb_false_iff in H.
  apply andb_prop in H as [H _]. apply andb_prop in H as [H _].
  apply andb_prop in H as [H Hh]. apply andb_prop in H as [H Ha].
  apply andb_prop in H as [Hg Hs].
  split; [now apply eqPhase_true|]. split; [now apply Z.eqb_eq|].
  split; [now apply eqAmmo_true|now apply eqb_prop].
Qed.

Lemma commit_idle w a b : gameState b <> playing -> commit w a b = b.
Proof.
  intros Hp. unfold commit. destruct (depsChanged a b); [|reflexivity].
  assert (He : forall clock, effect (innerWidth w) (innerHeight w) clock b = b).
  { intros clock. unfold effect. destruct (gameState b); try reflexivity.
    congruence. }
  rewrite !He. now rewrite depsChanged_refl.
Qed.

(** The game that [initGame] leaves, with the spawn reference at [clock];
    of the state before it keeps the language, the difficulty, the
    identifier counter and the count of random draws. *)
Definition restarted (width height clock : R) (b : App) : App :=
  mkApp playing 0 INITIAL_AMMO (language b) (difficulty b) false [] []
        (layout width height) [] clock (nextIdRef b)
        (Some (mkCanvas width height)) (draws b).

Lemma effect_restarts width height clock b :
  gameState b = playing -> canvas b <> None ->
  effect width height clock b = restarted width height clock b.
Proof.
  intros Hp Hc.
  destruct b as [gs sc am la di sh mi ex bu pa le ne [c|] dr];
    cbn [gameState canvas] in Hp, Hc; [|congruence].
  subst gs. reflexivity.
Qed.

Lemma commit_restart w a b :
  depsChanged a b = true -> gameState b = playing -> canvas b <> None ->
  exists clock,
    (clock = now w \/ clock = later w)
    /\ commit w a b = restarted (innerWidth w) (innerHeight w) clock b.
Proof.
  intros Hd Hp Hc. unfold commit. rewrite Hd.
  rewrite (effect_restarts _ _ (now w) b Hp Hc).
  destruct (depsChanged b _).
  - exists (later w). split; [now right|].
    rewrite effect_restarts; [reflexivity|reflexivity|simpl; discriminate].
  - exists (now w). split; [now left|reflexivity].
Qed.

Lemma fireMissile_cases targetX targetY a :
  fireMissile targetX targetY a = a
  \/ exists b side,
       b_batterySide b = Some side
       /\ gameState a = playing
       /\ fireMissile targetX targetY a = launch targetX targetY a b.
Proof.
  destruct (gameState a) eqn:Hp; try (left; unfold fireMissile; rewrite Hp; reflexivity).
  destruct (showHelp a) eqn:Hh; [left; unfold fireMissile; rewrite Hp, Hh; reflexivity|].
  rewrite (fireMissile_guarded targetX targetY a Hp Hh).
  pose proof (pickBattery_inv (ammo a) targetX
                (filter isActiveBattery (buildingsRef a))) as Hinv.
  destruct (pickBattery _ _ _) as [[b|] [d|]]; simpl in *; try contradiction;
    [|now left].
  destruct Hinv as (_ & Ham & _). unfold hasAmmo in Ham.
  destruct (b_batterySide b) as [side|] eqn:Hside; [|discriminate].
  right. exists b, side. auto.
Qed.

Lemma launch_changes_deps targetX targetY a b side :
  b_batterySide b = Some side ->
  depsChanged a (launch targetX targetY a b) = true
  /\ gameState (launch targetX targetY a b) = gameState a
  /\ canvas (launch targetX targetY a b) = canvas a.
Proof.
  intros Hs. unfold launch. rewrite Hs. cbn. split; [|split; reflexivity].
  unfold depsChanged. cbn.
  assert (eqAmmo (ammo a) (ammoSet (ammo a) side (ammoAt (ammo a) side - 1))
          = false) as ->; [|now rewrite !andb_false_r].
  destruct (eqAmmo _ _) eqn:E; [|reflexivity].
  apply eqAmmo_true in E.
  assert (ammoAt (ammoSet (ammo a) side (ammoAt (ammo a) side - 1)) side
          = ammoAt (ammo a) side) as H by now rewrite <- E.
  rewrite ammoAt_ammoSet_same in H. lia.
Qed.

Definition allEnemies (a : App) : Prop :=
  Forall (fun m => m_isEnemy m = true) (missilesRef a).

Lemma update_enemies random time a :
  allEnemies a -> allEnemies (update random time a).
Proof.
  intros H. unfold allEnemies in *.
  destruct (canvas a) as [cv|] eqn:Hc; [|unfold update; rewrite Hc; exact H].
  destruct (showHelp a) eqn:Hh;
    [unfold update; rewrite Hc, Hh; exact H|].
  assert (Hc' : canvas a <> None) by congruence.
  destruct (update_frame random time a Hc' Hh) as (Hm & _).
  cbv zeta in Hm. rewrite Hm. apply Forall_forall. intros m' Hin.
  apply filter_In in Hin as [Hin _].
  apply in_map_iff in Hin as (m & <- & Hin).
  apply filter_In in Hin as [Hin _]. cbn [advance m_isEnemy].
  rewrite Forall_forall in H.
  unfold spawnPhase in Hin. destruct (spawnDue time (score a) a); [|auto].
  cbn [setLastEnemySpawn missilesRef] in Hin.
  destruct (filter isLive (buildingsRef a)) as [|b0 others] eqn:Hf.
  - unfold spawnEnemy in Hin. rewrite Hc, Hf in Hin. auto.
  - rewrite (spawnEnemy_eq random a cv b0 others Hc Hf) in Hin.
    cbn [missilesRef] in Hin. apply in_app_or in Hin as [Hin|[<-|[]]]; auto.
Qed.

(** Either the handler leaves the ammo, the help flag and the kind of the
    missiles as they are, or it ends in [playing] with a dependency of the
    effect changed. *)
Lemma handle_keeps_or_changes random ev a b :
  showHelp a = false -> handle random ev a = Some b ->
  (ammo b = ammo a /\ showHelp b = false /\ (allEnemies a -> allEnemies b))
  \/ (gameState b = playing /\ depsChanged a b = true).
Proof.
  intros Hh H. destruct ev; simpl in H.
  - destruct (isPlaying (gameState a)); [|discriminate]. injection H as <-.
    left. split; [apply update_ammo|]. split; [now rewrite update_showHelp|].
    apply update_enemies.
  - injection H as <-. destruct (negb _ || _); [left; auto|].
    destruct (fireMissile_cases x y a) as [->|(b0 & side & Hs & Hp & ->)];
      [left; auto|].
    right. destruct (launch_changes_deps x y a b0 side Hs) as (Hd & Hg & _).
    split; [congruence|exact Hd].
  - destruct (gameState a) eqn:Hp; try discriminate. injection H as <-.
    right. split; [reflexivity|]. apply depsChanged_phase. simpl. congruence.
  - destruct (gameState a) eqn:Hp; try discriminate; injection H as <-;
      right; (split; [reflexivity|]); apply depsChanged_phase; simpl; congruence.
  - destruct (gameState a) eqn:Hp; try discriminate. injection H as <-.
    right. split; [exact Hp|]. unfold depsChanged. cbn. rewrite Hh. cbn.
    now rewrite !andb_false_r.
  - rewrite Hh in H. discriminate.
  - destruct (gameState a); try discriminate; injection H as <-; left; auto.
  - injection H as <-. left; auto.
Qed.

Lemma reachable_shots random a :
  Reachable random a ->
  ammo a = INITIAL_AMMO /\ allEnemies a /\ showHelp a = false.
Proof.
  intros Hr. induction Hr as [|w ev a b Hr (IHa & IHm & IHh) Hd].
  - repeat split. constructor.
  - destruct (reachable_score random a Hr) as (Hc & _).
    unfold dispatch in Hd.
    destruct (handle random ev a) as [b'|] eqn:Hh; [|discriminate].
    injection Hd as <-.
    assert (Hc' : canvas b' <> None)
      by (rewrite (handle_canvas random ev a b' Hh); exact Hc).
    assert (Hrestart : depsChanged a b' = true -> gameState b' = playing ->
              ammo (commit w a b') = INITIAL_AMMO /\ allEnemies (commit w a b')
              /\ showHelp (commit w a b') = false).
    { intros Hdp Hp. destruct (commit_restart w a b' Hdp Hp Hc') as (clock & _ & ->).
      repeat split. constructor. }
    destruct (handle_keeps_or_changes random ev a b' IHh Hh)
      as [(Ha & Hs & Hm)|(Hp & Hdp)]; [|now apply Hrestart].
    destruct (depsChanged a b') eqn:Hdp.
    + destruct (gameState b') eqn:Hp;
        try (rewrite commit_idle by congruence; repeat split; auto; congruence).
      now apply Hrestart.
    + unfold commit. rewrite Hdp. repeat split; auto; congruence.
Qed.

(** The state after the start button has been pressed on the mounted page,
    in a window of 800 x 600. *)
Definition firstGame : App :=
  commit (mkBrowser 800 600 0 0) mounted (setGameState playing mounted).

Lemma firstGame_reachable random : Reachable random firstGame.
Proof.
  apply (reach_dispatch random (mkBrowser 800 600 0 0) StartButton mounted).
  - apply reach_mounted.
  - unfold firstGame, dispatch. cbn [handle mounted gameState]. reflexivity.
Qed.

(** X11. In no state that the page can reach is the phase [won], and in
    every reachable state in [playing] the score is 0: each change of the
    score changes a dependency of the effect, which then runs [initGame]
    again, so the threshold of 1000 is never met. *)
Theorem game_is_never_won (random : nat -> R) (a : App) :
  Reachable random a ->
  gameState a <> won /\ (gameState a = playing -> score a = 0%Z).
Proof.
  intros Hr. destruct (reachable_score random a Hr) as (_ & Hs & Hw).
  split; assumption.
Qed.

Lemma game_is_never_won_witness :
  Reachable (fun _ => 0) firstGame
  /\ gameState firstGame <> won
  /\ (gameState firstGame = playing -> score firstGame = 0%Z).
Proof.
  split; [apply firstGame_reachable|].
  exact (game_is_never_won (fun _ => 0) firstGame (firstGame_reachable (fun _ => 0))).
Defined.

(** X12. In every state that the page can reach the ammo is 20/40/20, no
    player missile is in flight, and the help is closed: a shot that leaves
    a battery, and the help button, change a dependency of the effect, which
    then runs [initGame] again and so takes the missile, the spent ammo and
    the open help away. *)
Theorem no_shot_survives (random : nat -> R) (a : App) :
  Reachable random a ->
  ammo a = mkAmmo 20 40 20
  /\ Forall (fun m => m_isEnemy m = true) (missilesRef a)
  /\ showHelp a = false.
Proof. apply reachable_shots. Qed.

Lemma no_shot_survives_witness :
  Reachable (fun _ => 0) firstGame
  /\ ammo firstGame = mkAmmo 20 40 20
  /\ Forall (fun m => m_isEnemy m = true) (missilesRef firstGame)
  /\ showHelp firstGame = false.
Proof.
  split; [apply firstGame_reachable|].
  exact (no_shot_survives (fun _ => 0) firstGame (firstGame_reachable (fun _ => 0))).
Defined.

(** X13. When the handler of an event ends in [playing] with the phase,
    the score, the ammo, the help flag, the difficulty or the language
    changed, the effect runs and the event leaves a game initialised anew:
    score 0, ammo 20/40/20, help closed, no missile, blast or particle, the
    layout of the current window, and the spawn reference at the clock; only
    the language, the difficulty, the identifier counter and the count of
    random draws are kept.  The state changes that the effect makes itself
    trigger it once more at most: a second run changes no dependency. *)
Theorem state_change_restarts_game (random : nat -> R) (w : Browser)
  (ev : Event) (a b : App) :
  (handle random ev a = Some b ->
   depsChanged a b = true -> gameState b = playing -> canvas a <> None ->
   exists clock,
     (clock = now w \/ clock = later w)
     /\ dispatch random w ev a
        = Some (mkApp playing 0 INITIAL_AMMO (language b) (difficulty b) false
                      [] [] (layout (innerWidth w) (innerHeight w)) [] clock
                      (nextIdRef b)
                      (Some (mkCanvas (innerWidth w) (innerHeight w))) (draws b)))
  /\ (let once := effect (innerWidth w) (innerHeight w) (now w) a in
      let twice := effect (innerWidth w) (innerHeight w) (later w) once in
      depsChanged once twice = false).
Proof.
  split.
  - intros Hh Hd Hp Hc.
    assert (Hc' : canvas b <> None)
      by (rewrite (handle_canvas random ev a b Hh); exact Hc).
    destruct (commit_restart w a b Hd Hp Hc') as (clock & Hcl & Heq).
    exists clock. split; [exact Hcl|]. unfold dispatch. rewrite Hh, Heq.
    reflexivity.
  - cbv zeta. clear b.
    destruct a as [gs sc am la di sh mi ex bu pa le ne ca dr].
    destruct gs, ca as [c|]; try apply depsChanged_refl;
      unfold depsChanged; cbn;
      now rewrite ?Z.eqb_refl, ?eqAmmo_refl, ?eqb_reflx, ?eqDifficulty_refl,
        ?eqLanguage_refl.
Qed.

Lemma state_change_restarts_game_witness :
  let w := mkBrowser 800 600 5000 5001 in
  handle (fun _ => 0) HelpButton scene = Some (setShowHelp true scene)
  /\ depsChanged scene (setShowHelp true scene) = true
  /\ gameState (setShowHelp true scene) = playing
  /\ canvas scene <> None
  /\ exists clock,
       (clock = now w \/ clock = later w)
       /\ dispatch (fun _ => 0) w HelpButton scene
          = Some (mkApp playing 0 INITIAL_AMMO zh medium false
                        [] [] (layout 800 600) [] clock 9
                        (Some (mkCanvas 800 600)) 0).
Proof.
  intros w.
  assert (H1 : handle (fun _ => 0) HelpButton scene = Some (setShowHelp true scene))
    by reflexivity.
  assert (H2 : depsChanged scene (setShowHelp true scene) = true) by reflexivity.
  assert (H3 : gameState (setShowHelp true scene) = playing) by reflexivity.
  split; [exact H1|]. split; [exact H2|]. split; [exact H3|].
  split; [exact scene_canvas|].
  exact (proj1 (state_change_restarts_game (fun _ => 0) w HelpButton scene
                  (setShowHelp true scene)) H1 H2 H3 scene_canvas).
Defined.

(** ** The pointer handler *)

(** What [handleCanvasClick] receives: a mouse event, or a touch event with
    its list of touches. *)
Inductive PointerInput :=
| MouseInput (clientX clientY : R)
| TouchInput (touches : list Point).

(** [handleCanvasClick]; the result is [None] when the handler throws, which
    it does on reading [clientX] of [e.touches[0]] when there is no touch. *)
Definition handleCanvasClick (e : PointerInput) (a : App) : option App :=
  if negb (isPlaying (gameState a)) || showHelp a then Some a
  else
    match e with
    | TouchInput touches =>
        match touches with
        | [] => None
        | first :: _ => Some (fireMissile (px first) (py first) a)
        end
    | MouseInput x y => Some (fireMissile x y a)
    end.

Lemma fireMissile_outside targetX targetY a :
  negb (isPlaying (gameState a)) || showHelp a = true ->
  fireMissile targetX targetY a = a.
Proof. intros H. unfold fireMissile. now rewrite H. Qed.

(** X14. The pointer handler fires at the mouse position, or at the first
    touch of a touch event whatever the other touches are; its own guard
    adds nothing to the guard of [fireMissile].  It throws exactly for a
    touch event without touches received in [playing] with the help closed.
    One event adds at most one missile. *)
Theorem pointer_fires_once (a : App) :
  (forall x y, handleCanvasClick (MouseInput x y) a = Some (fireMissile x y a))
  /\ (forall first others,
        handleCanvasClick (TouchInput (first :: others)) a
        = Some (fireMissile (px first) (py first) a))
  /\ (handleCanvasClick (TouchInput []) a = None
      <-> gameState a = playing /\ showHelp a = false)
  /\ (forall e b, handleCanvasClick e a = Some b ->
        (length (missilesRef b) <= S (length (missilesRef a)))%nat
        /\ (length (missilesRef a) <= length (missilesRef b))%nat).
Proof.
  assert (Hlen : forall x y,
            (length (missilesRef (fireMissile x y a)) <= S (length (missilesRef a)))%nat
            /\ (length (missilesRef a) <= length (missilesRef (fireMissile x y a)))%nat).
  { intros x y. destruct (fireMissile_shape x y a) as [->|[b ->]]; [lia|].
    unfold launch. destruct (b_batterySide b); cbn; rewrite length_app; simpl; lia. }
  split; [|split; [|split]].
  - intros x y. unfold handleCanvasClick.
    destruct (negb _ || _) eqn:Hg; [|reflexivity].
    now rewrite fireMissile_outside.
  - intros first others. unfold handleCanvasClick.
    destruct (negb _ || _) eqn:Hg; [|reflexivity].
    now rewrite fireMissile_outside.
  - unfold handleCanvasClick. destruct (gameState a), (showHelp a); simpl;
      split; intros H; try discriminate; try (destruct H; discriminate); auto.
  - intros e b H. unfold handleCanvasClick in H.
    destruct (negb _ || _); [injection H as <-; lia|].
    destruct e as [x y|[|first others]]; try discriminate;
      injection H as <-; apply Hlen.
Qed.

Lemma pointer_fires_once_witness :
  handleCanvasClick (TouchInput [mkPoint 100 200; mkPoint 700 200]) inPlay
  = Some (fireMissile 100 200 inPlay)
  /\ (length (missilesRef (fireMissile 100 200 inPlay))
      <= S (length (missilesRef inPlay)))%nat.
Proof.
  pose proof (pointer_fires_once inPlay) as (_ & Ht & _ & Hl).
  assert (H : handleCanvasClick (TouchInput [mkPoint 100 200; mkPoint 700 200]) inPlay
              = Some (fireMissile 100 200 inPlay))
    by exact (Ht (mkPoint 100 200) [mkPoint 700 200]).
  split; [exact H|]. exact (proj1 (Hl _ _ H)).
Defined.

(** ** The layout *)




(** ** The buildings the page shows *)






(** ** The radius of a blast over its life *)




